(** * Calazar password analyzer: strength analysis and suggestion generator

    A shallow embedding of the analysis core of [Calazar_PM.py]
    ([calc_entropy], [analyze_password], [generate_suggestion]) together
    with the properties stated about it. *)

From Stdlib Require Import ZArith NArith QArith Qround Qpower Lia Lqa.
From Stdlib Require Import String Ascii Permutation.
From Stdlib Require Floats.SpecFloat.
From Equations Require Import Equations.
From stdpp Require Import base decidable list gmap.

Local Open Scope Z_scope.

(** ** Binary64 arithmetic

    Python's [float] is IEEE 754 binary64.  A finite float is a dyadic
    rational, so float values are carried as exact rationals and every
    operation rounds its exact result to the nearest value with a 53 bit
    significand, ties to even.  The exponent range is left unbounded: the
    only products the analyzer forms are [len(pw) * log2(pool)] with
    [len(pw) < 2^63], far from overflow and from the subnormal range. *)

Module F64.

(** Round half to even, to an integer. *)
Definition rne (q : Q) : Z :=
  let f := Qfloor q in
  match (q - inject_Z f ?= 1 # 2)%Q with
  | Lt => f
  | Gt => f + 1
  | Eq => if Z.even f then f else f + 1
  end.

(** Binade of a positive rational: [2^(ilog2 x) <= x < 2^(ilog2 x + 1)]. *)
Definition ilog2 (x : Q) : Z :=
  let t := Z.log2 (Qnum x) - Z.log2 (Z.pos (Qden x)) in
  if Qle_bool (2 ^ t) x then t else t - 1.

Definition prec : Z := 53.

(** Unit in the last place of the binade of [x]. *)
Definition ulp (x : Q) : Q := (2 ^ (ilog2 x - (prec - 1)))%Q.

Definition round_pos (x : Q) : Q :=
  (inject_Z (rne (x / ulp x)) * ulp x)%Q.

(** Round to nearest, ties to even, at 53 bits. *)
Definition round (x : Q) : Q :=
  Qred match (x ?= 0)%Q with
       | Eq => 0
       | Gt => round_pos x
       | Lt => - round_pos (- x)
       end%Q.

(** [float(n)] for a Python int. *)
Definition of_int (n : Z) : Q := round (inject_Z n).

(** [x * y] on floats. *)
Definition mul (x y : Q) : Q := round (x * y).

(** [round(x, 2)]: the decimal with two places nearest to [x] (ties to
    even on the exact binary value), read back as the nearest float. *)
Definition round2 (x : Q) : Q := round (inject_Z (rne (x * 100)) / 100).

(** [x > n] for a float [x] and an int [n]; the comparison is exact. *)
Definition gtb_int (x : Q) (n : Z) : bool := negb (Qle_bool x (inject_Z n)).

End F64.

(** Values of the reference IEEE 754 model of the Standard Library. *)
Definition SF2Q (f : SpecFloat.spec_float) : Q :=
  match f with
  | SpecFloat.S754_finite s m e =>
      Qred ((if s then - inject_Z (Z.pos m) else inject_Z (Z.pos m)) * 2 ^ e)
  | _ => 0
  end%Q.

Definition SFofZ (n : Z) : SpecFloat.spec_float :=
  SpecFloat.binary_normalize 53 1024 n 0 false.

Definition SFofQ (q : Q) : SpecFloat.spec_float :=
  SpecFloat.SFdiv 53 1024 (SFofZ (Qnum q)) (SFofZ (Z.pos (Qden q))).

(** [round(n * l, 2)] computed with the reference operations. *)
Definition SF_entropy (n : Z) (l : Q) : Q :=
  let x := SF2Q (SpecFloat.SFmul 53 1024 (SFofZ n) (SFofQ l)) in
  SF2Q (SpecFloat.SFdiv 53 1024 (SFofZ (F64.rne (x * 100))) (SFofZ 100)).

(** ** Strings and character classes

    A Python [str] is a sequence of code points. *)

Definition char := N.
Definition str := list char.

Definition len {A} (l : list A) : Z := Z.of_nat (List.length l).

(** The code points of an ASCII literal. *)
Definition py (s : string) : str := N_of_ascii <$> list_ascii_of_string s.

(** What the Python runtime supplies and the repository does not: the
    Unicode character database, consulted for code points outside ASCII,
    [str.lower] on strings that are not pure ASCII (full case mapping
    is context sensitive there), and the C library's [log2] behind
    [math.log2]. *)
Record platform := {
  uni_islower : char -> bool;
  uni_isupper : char -> bool;
  uni_isdigit : char -> bool;
  uni_isalnum : char -> bool;
  uni_lower : str -> str;
  math_log2 : Z -> Q
}.

Definition is_ascii (c : char) : bool := (c <? 128)%N.

Definition ascii_islower (c : char) : bool := ((97 <=? c) && (c <=? 122))%N.
Definition ascii_isupper (c : char) : bool := ((65 <=? c) && (c <=? 90))%N.
Definition ascii_isdigit (c : char) : bool := ((48 <=? c) && (c <=? 57))%N.
Definition ascii_isalnum (c : char) : bool :=
  ascii_islower c || ascii_isupper c || ascii_isdigit c.

Definition ascii_lower (c : char) : char :=
  if ascii_isupper c then (c + 32)%N else c.
Definition ascii_upper (c : char) : char :=
  if ascii_islower c then (c - 32)%N else c.

Section Runtime.
Context (P : platform).

(** [c.islower()], [c.isupper()], [c.isdigit()], [c.isalnum()] for a
    one-character string. *)
Definition islower (c : char) : bool :=
  if is_ascii c then ascii_islower c else uni_islower P c.
Definition isupper (c : char) : bool :=
  if is_ascii c then ascii_isupper c else uni_isupper P c.
Definition isdigit (c : char) : bool :=
  if is_ascii c then ascii_isdigit c else uni_isdigit P c.
Definition isalnum (c : char) : bool :=
  if is_ascii c then ascii_isalnum c else uni_isalnum P c.

(** [s.lower()]. *)
Definition lower (s : str) : str :=
  if forallb is_ascii s then ascii_lower <$> s else uni_lower P s.

End Runtime.

(** [s.upper()] on an ASCII literal. *)
Definition upper_ascii (s : str) : str := ascii_upper <$> s.

(** ** Common weak passwords *)

Definition COMMONS : gset str :=
  {[ py "123456"; py "password"; py "123456789"; py "qwerty"; py "abc123";
     py "111111"; py "123123"; py "iloveyou";
     py "password1"; py "admin"; py "letmein" ]}.

(** ** Entropy estimate and strength analysis *)

Record analysis := {
  score : Z;
  entropy : Q;
  rating : string;
  suggestions : list string
}.

Section Analyzer.
Context (P : platform).

Definition calc_entropy (pw : str) : Q :=
  let pool := 0 in
  let pool := if existsb (islower P) pw then pool + 26 else pool in
  let pool := if existsb (isupper P) pw then pool + 26 else pool in
  let pool := if existsb (isdigit P) pw then pool + 10 else pool in
  let pool := if existsb (fun c => negb (isalnum P c)) pw then pool + 32 else pool in
  if (pool =? 0) || (len pw =? 0) then 0%Q
  else
    let entropy := F64.mul (F64.of_int (len pw)) (math_log2 P pool) in
    F64.round2 entropy.

Definition space : char := 32%N.

Definition analyze_password (pw : str) : analysis :=
  match pw with
  | [] =>
      {| score := 0; entropy := 0; rating := "Empty"%string;
         suggestions := ["Type a password"%string] |}
  | _ =>
      if bool_decide (lower P pw ∈ COMMONS) then
        {| score := 0; entropy := calc_entropy pw;
           rating := "Very Weak (common)"%string;
           suggestions := ["Use a unique password not in common lists"%string;
                           "Increase length"%string;
                           "Add symbols and mixed case"%string] |}
      else
        let entropy := calc_entropy pw in
        let score := 0 in
        let score := if 8 <=? len pw then score + 1 else score in
        let score := if 12 <=? len pw then score + 1 else score in
        let score := if existsb (islower P) pw then score + 1 else score in
        let score := if existsb (isupper P) pw then score + 1 else score in
        let score := if existsb (isdigit P) pw then score + 1 else score in
        let score :=
          if existsb (fun c => negb (isalnum P c)) pw then score + 1 else score in
        let score := if F64.gtb_int entropy 60 then score + 1 else score in
        let rating :=
          if score <=? 2 then "Weak"%string
          else if score <=? 4 then "Medium"%string
          else if score <=? 6 then "Strong"%string
          else "Very Strong"%string in
        let suggestions := [] in
        let suggestions :=
          if len pw <? 12
          then suggestions ++ ["Increase length to 12+ characters"%string]
          else suggestions in
        let suggestions :=
          if negb (existsb (isupper P) pw)
          then suggestions ++ ["Add uppercase letters (A-Z)"%string]
          else suggestions in
        let suggestions :=
          if negb (existsb (islower P) pw)
          then suggestions ++ ["Add lowercase letters (a-z)"%string]
          else suggestions in
        let suggestions :=
          if negb (existsb (isdigit P) pw)
          then suggestions ++ ["Add digits (0-9)"%string]
          else suggestions in
        let suggestions :=
          if negb (existsb (fun c => negb (isalnum P c)) pw)
          then suggestions ++ ["Include symbols (e.g. ! @ # $ %)"%string]
          else suggestions in
        let suggestions :=
          if bool_decide (space ∈ pw)
          then suggestions ++
               ["Avoid spaces in passwords (or use predictable separators carefully)"%string]
          else suggestions in
        let suggestions :=
          match suggestions with
          | [] => suggestions ++
                  ["Looks good — consider using a passphrase for extra entropy"%string]
          | _ => suggestions
          end in
        {| score := score; entropy := entropy; rating := rating;
           suggestions := suggestions |}
  end.

End Analyzer.

(** ** The random source and Python's exceptions

    [random] is modelled as a tape of raw outcomes still to be drawn;
    [randbelow n] reduces the next one into [range(n)], so the tapes
    range over every outcome of the random choices.  A computation
    returns a value or raises. *)

Inductive exn := IndexError.

Inductive result (A : Type) :=
| Ok (a : A)
| Raise (e : exn).
Arguments Ok {A} a.
Arguments Raise {A} e.

Definition rng := list nat.

Definition M (A : Type) : Type := rng -> result A * rng.

Definition ret {A} (a : A) : M A := fun t => (Ok a, t).
Definition raise {A} (e : exn) : M A := fun t => (Raise e, t).
Definition bind {A B} (m : M A) (k : A -> M B) : M B :=
  fun t => match m t with
           | (Ok a, t') => k a t'
           | (Raise e, t') => (Raise e, t')
           end.

Notation "x <- m ;; k" := (bind m (fun x => k))
  (at level 20, m at level 99, k at level 200, only parsing).

Definition randbelow (n : nat) : M nat :=
  fun t => match t with
           | [] => (Ok 0%nat, [])
           | r :: t' => (Ok (r mod n)%nat, t')
           end.

(** [seq[i]] and [seq[i] = a] for an index in [range(len(seq))]. *)
Definition getitem {A} (seq : list A) (i : nat) : M A :=
  match seq !! i with
  | Some a => ret a
  | None => raise IndexError
  end.

Definition setitem {A} (seq : list A) (i : nat) (a : A) : M (list A) :=
  if decide (i < List.length seq)%nat then ret (<[i:=a]> seq)
  else raise IndexError.

(** [random.choice(seq)]. *)
Definition choice {A} (seq : list A) : M A :=
  match seq with
  | [] => raise IndexError
  | _ => i <- randbelow (List.length seq) ;; getitem seq i
  end.

(** One round of [random.shuffle]: [j = randbelow(i + 1)] and
    [x[i], x[j] = x[j], x[i]], for [i] counting down to 1. *)
Fixpoint shuffle_from {A} (i : nat) (x : list A) : M (list A) :=
  match i with
  | O => ret x
  | S i' =>
      j <- randbelow (i + 1) ;;
      xj <- getitem x j ;;
      xi <- getitem x i ;;
      x <- setitem x i xj ;;
      x <- setitem x j xi ;;
      shuffle_from i' x
  end.

(** [random.shuffle(x)]: [for i in reversed(range(1, len(x)))]. *)
Definition shuffle {A} (x : list A) : M (list A) :=
  shuffle_from (List.length x - 1) x.

(** ** Password generator *)

Definition lowers : str := py "abcdefghijklmnopqrstuvwxyz".
Definition uppers : str := upper_ascii lowers.
Definition digits : str := py "0123456789".
Definition symbols : str := py "!@#$%^&*()-_=+[]{};:,.<>/?".
Definition allchars : str := lowers ++ uppers ++ digits ++ symbols.

Definition inspect {A} (a : A) : {b : A | a = b} := exist _ a eq_refl.

(** [while len(pwd) < length: pwd.append(random.choice(allchars))] *)
Equations? fill (n : Z) (pwd : list char) : M (list char)
  by wf (Z.to_nat (n - len pwd)) lt :=
  fill n pwd with inspect (len pwd <? n) := {
    | exist _ true _ => c <- choice allchars ;; fill n (pwd ++ [c])
    | exist _ false _ => ret pwd }.
Proof.
  unfold len in *. rewrite length_app. simpl. lia.
Qed.

Definition generate_suggestion (length : Z) : M str :=
  c1 <- choice lowers ;;
  c2 <- choice uppers ;;
  c3 <- choice digits ;;
  c4 <- choice symbols ;;
  let pwd := [c1; c2; c3; c4] in
  pwd <- fill length pwd ;;
  pwd <- shuffle pwd ;;
  ret pwd.

Definition default_length : Z := 16.

(** ** A reference runtime

    The tables of a runtime whose inputs stay within ASCII (no code point
    beyond it is classified, and [str.lower] leaves other strings alone)
    and whose [math.log2] returns, on the pool sizes [calc_entropy] can
    reach, the binary64 value nearest to the logarithm; elsewhere only
    its integer part is kept. *)

Definition log2_table (n : Z) : Q :=
  match n with
  | 10 => (7480317065143153 # 2 ^ 51)%Q
  | 26 => (5292224640774425 # 2 ^ 50)%Q
  | 32 => 5%Q
  | 36 => (5820818077507252 # 2 ^ 50)%Q
  | 42 => (6071209683972465 # 2 ^ 50)%Q
  | 52 => (6418124547617049 # 2 ^ 50)%Q
  | 58 => (6595500256699995 # 2 ^ 50)%Q
  | 62 => (6703829071187278 # 2 ^ 50)%Q
  | 68 => (6853873845871692 # 2 ^ 50)%Q
  | 84 => (7197109590815089 # 2 ^ 50)%Q
  | 94 => (7379810977495554 # 2 ^ 50)%Q
  | _ => inject_Z (Z.log2 n)
  end.

(** The pool sizes that sums of 26, 26, 10 and 32 can reach. *)
Definition pools : list Z := [10; 26; 32; 36; 42; 52; 58; 62; 68; 84; 94].

Definition ascii_runtime : platform := {|
  uni_islower := fun _ => false;
  uni_isupper := fun _ => false;
  uni_isdigit := fun _ => false;
  uni_isalnum := fun _ => false;
  uni_lower := fun s => s;
  math_log2 := log2_table
|}.

(** ** The analyzer as the specification words it

    The criteria, thresholds and checks of the specification, to compare
    with what [calc_entropy] and [analyze_password] compute. *)

Section Spec.
Context (P : platform).

Definition has_lower (pw : str) : bool := existsb (islower P) pw.
Definition has_upper (pw : str) : bool := existsb (isupper P) pw.
Definition has_digit (pw : str) : bool := existsb (isdigit P) pw.
Definition has_symbol (pw : str) : bool :=
  existsb (fun c => negb (isalnum P c)) pw.

(** Sum of the contributions of the classes present. *)
Definition pool_size (pw : str) : Z :=
  (if has_lower pw then 26 else 0) + (if has_upper pw then 26 else 0) +
  (if has_digit pw then 10 else 0) + (if has_symbol pw then 32 else 0).

(** The seven scoring criteria, in the order of the specification. *)
Definition criteria (pw : str) : list bool :=
  [ 8 <=? len pw; 12 <=? len pw;
    has_lower pw; has_upper pw; has_digit pw; has_symbol pw;
    F64.gtb_int (calc_entropy P pw) 60 ].

Definition count_true (l : list bool) : Z :=
  foldr (fun b n => Z.b2z b + n) 0 l.

(** Rating thresholds on the score. *)
Definition rating_of (score : Z) : string :=
  if decide (score <= 2) then "Weak"%string
  else if decide (score <= 4) then "Medium"%string
  else if decide (score <= 6) then "Strong"%string
  else "Very Strong"%string.

(** The unmet-criterion checks with their hints, in order. *)
Definition checks (pw : str) : list (bool * string) :=
  [ (len pw <? 12, "Increase length to 12+ characters"%string);
    (negb (has_upper pw), "Add uppercase letters (A-Z)"%string);
    (negb (has_lower pw), "Add lowercase letters (a-z)"%string);
    (negb (has_digit pw), "Add digits (0-9)"%string);
    (negb (has_symbol pw), "Include symbols (e.g. ! @ # $ %)"%string);
    (bool_decide (space ∈ pw),
     "Avoid spaces in passwords (or use predictable separators carefully)"%string)
  ].

Definition fired (l : list (bool * string)) : list string :=
  snd <$> filter (fun c => fst c = true) l.

Definition suggestions_spec (pw : str) : list string :=
  match fired (checks pw) with
  | [] => ["Looks good — consider using a passphrase for extra entropy"%string]
  | l => l
  end.

(** Every class [c] belongs to already occurs in [s]. *)
Definition classes_present (c : char) (s : str) : Prop :=
  (islower P c = true -> has_lower s = true) /\
  (isupper P c = true -> has_upper s = true) /\
  (isdigit P c = true -> has_digit s = true) /\
  (isalnum P c = false -> has_symbol s = true).

End Spec.

(** ** What the generator promises

    [m] returns, whatever the tape, a value satisfying [Q]; it does not
    raise. *)

Definition returns {A} (m : M A) (Q : A -> Prop) : Prop :=
  forall t, exists a t', m t = (Ok a, t') /\ Q a.

(** At least one character of each of the four classes. *)
Definition one_of_each (s : str) : Prop :=
  (exists c, c ∈ s /\ c ∈ lowers) /\ (exists c, c ∈ s /\ c ∈ uppers) /\
  (exists c, c ∈ s /\ c ∈ digits) /\ (exists c, c ∈ s /\ c ∈ symbols).

(** ** The interactive session

    The state [main] keeps between ticks and what a key does to it.
    [KEY_ENTER] and [KEY_BACKSPACE] are the key codes of the curses
    library, [PYPERCLIP] tells whether the clipboard module was imported
    and [pyperclip_copy] whether a copy goes through ([false]: it raises,
    which [main] swallows).  Drawing and sleeping do not touch the state
    and are left out of [process_key]. *)

Record session := {
  input_buffer : list char;
  suggestion_pwd : str;
  clipboard : option str
}.

(** What [stdscr.getch()] yields: a key code, -1 when no key is waiting,
    or a [KeyboardInterrupt]. *)
Inductive event :=
| Key (key : Z)
| Interrupt.

Definition ord (c : char) : Z := Z.of_N c.
Definition chr (key : Z) : char := Z.to_N key.

(** [l.pop()] on a non-empty list, dropping the value. *)
Definition pop {A} (l : list A) : list A := removelast l.

Section Session.
Variables KEY_ENTER KEY_BACKSPACE : Z.
Variable PYPERCLIP : bool.
Variable pyperclip_copy : str -> bool.

Definition process_key (key : Z) (st : session) : M session :=
  if key =? -1 then ret st
  else if (key =? KEY_ENTER) || (key =? 10) || (key =? 13) then ret st
  else if (key =? KEY_BACKSPACE) || (key =? 127) || (key =? 8) then
    match input_buffer st with
    | [] => ret st
    | _ => ret {| input_buffer := pop (input_buffer st);
                  suggestion_pwd := suggestion_pwd st;
                  clipboard := clipboard st |}
    end
  else if (key =? ord 115%N) || (key =? ord 83%N) then
    suggestion <- generate_suggestion 16 ;;
    let clip :=
      if PYPERCLIP
      then if pyperclip_copy suggestion then Some suggestion else clipboard st
      else clipboard st in
    ret {| input_buffer := input_buffer st;
           suggestion_pwd := suggestion;
           clipboard := clip |}
  else if (32 <=? key) && (key <=? 126) then
    ret {| input_buffer := input_buffer st ++ [chr key];
           suggestion_pwd := suggestion_pwd st;
           clipboard := clipboard st |}
  else ret st.

(** The key classes of the dispatch, in its order of tests. *)
Definition is_enter (key : Z) : Prop := key = KEY_ENTER \/ key = 10 \/ key = 13.
Definition is_backspace (key : Z) : Prop :=
  key = KEY_BACKSPACE \/ key = 127 \/ key = 8.
Definition is_suggest (key : Z) : Prop := key = 115 \/ key = 83.
Definition is_printable (key : Z) : Prop := 32 <= key <= 126.

(** The loop over the keys read, until an interrupt breaks it. *)
Fixpoint run (evs : list event) (st : session) : M session :=
  match evs with
  | [] => ret st
  | Interrupt :: _ => ret st
  | Key key :: evs' => st' <- process_key key st ;; run evs' st'
  end.

End Session.

(** [input_buffer = []], [suggestion_pwd = ""] at start. *)
Definition initial (clip : option str) : session :=
  {| input_buffer := []; suggestion_pwd := []; clipboard := clip |}.


(** ** What a tick computes for the screen *)

(** [s * n] for a string and an int. *)
Definition str_repeat (s : str) (n : Z) : str := mjoin (replicate (Z.to_nat n) s).

(** [x / y] on floats and [int(x)]. *)
Definition f64_div (x y : Q) : Q := F64.round (x / y).
Definition f64_int (x : Q) : Z := Z.quot (Qnum x) (Z.pos (Qden x)).

Definition bar_w (max_x : Z) : Z := Z.min 40 (max_x - 20).

Definition filled (score bar_w : Z) : Z :=
  f64_int (F64.mul (f64_div (F64.of_int score) 7) (F64.of_int bar_w)).

Definition bar (score bar_w : Z) : str :=
  py "[" ++ str_repeat (py "#") (filled score bar_w) ++
  str_repeat (py "-") (bar_w - filled score bar_w) ++ py "]".

Definition box_w (max_x : Z) : Z := Z.max 60 (Z.min 80 (max_x - 10)).
Definition box_h : Z := 7.

(** ** Drawing the input box

    The calls [draw_input_box] issues on the screen, in order, when none
    of them raises (the function has no handler of its own). *)

Inductive glyph :=
| ACS_HLINE | ACS_VLINE
| ACS_ULCORNER | ACS_URCORNER | ACS_LLCORNER | ACS_LRCORNER.

(** [curses.color_pair(n)], possibly with [| curses.A_BOLD]. *)
Record attr := { color_pair : Z; A_BOLD : bool }.

Inductive draw :=
| Addch (y x : Z) (g : glyph) (a : attr)
| Addstr (y x : Z) (s : str) (a : attr).

(** [range(a, b)]. *)
Definition range (a b : Z) : list Z := seqZ a (b - a).

Definition draw_input_box (center_y center_x width height : Z) (shimmer : bool)
  : list draw :=
  let top := center_y - height / 2 in
  let left := center_x - width / 2 in
  let p n := {| color_pair := n; A_BOLD := false |} in
  (range 0 width ≫= fun dx =>
     [Addch top (left + dx) ACS_HLINE (p 2);
      Addch (top + height - 1) (left + dx) ACS_HLINE (p 2)]) ++
  (range 1 (height - 1) ≫= fun dy =>
     [Addch (top + dy) left ACS_VLINE (p 2);
      Addch (top + dy) (left + width - 1) ACS_VLINE (p 2)]) ++
  [Addch top left ACS_ULCORNER (p 2);
   Addch top (left + width - 1) ACS_URCORNER (p 2);
   Addch (top + height - 1) left ACS_LLCORNER (p 2);
   Addch (top + height - 1) (left + width - 1) ACS_LRCORNER (p 2)] ++
  (range 1 (height - 1) ≫= fun i =>
     let row_text := str_repeat (py " ") (width - 2) in
     if shimmer && (i mod 3 =? 0)
     then [Addstr (top + i) (left + 1) row_text {| color_pair := 3; A_BOLD := true |}]
     else [Addstr (top + i) (left + 1) row_text (p 1)]).

(** What a call leaves in cell [(y, x)], if it writes there. *)
Inductive cell :=
| Glyph (g : glyph)
| Char (c : char).

Definition writes (d : draw) (y x : Z) : option cell :=
  match d with
  | Addch y' x' g _ =>
      if (y =? y') && (x =? x') then Some (Glyph g) else None
  | Addstr y' x' s _ =>
      if (y =? y') && (x' <=? x) then Char <$> s !! Z.to_nat (x - x') else None
  end.

(** The content of a cell after a sequence of calls on an erased screen:
    the last write wins. *)
Definition cell_at (ds : list draw) (y x : Z) : option cell :=
  foldl (fun acc d => match writes d y x with Some c => Some c | None => acc end)
        None ds.

(** The cells a call touches lie in the window of [max_y] rows and
    [max_x] columns. *)
Definition inside (max_y max_x : Z) (d : draw) : Prop :=
  match d with
  | Addch y x _ _ => 0 <= y < max_y /\ 0 <= x < max_x
  | Addstr y x s _ => 0 <= y < max_y /\ 0 <= x /\ x + len s <= max_x
  end.

(** ** The text [main] puts in the box

    [s[:n]], the instruction line and the masked password, as the calls
    [main] issues after [draw_input_box]; each sits in a handler that
    swallows [curses.error]. *)






(** What the finished box shows in cell [(y, x)] of its rectangle:
    corners, lines between them, blanks inside. *)
Definition box_cell (top left width height y x : Z) : cell :=
  if y =? top then
    if x =? left then Glyph ACS_ULCORNER
    else if x =? left + width - 1 then Glyph ACS_URCORNER
    else Glyph ACS_HLINE
  else if y =? top + height - 1 then
    if x =? left then Glyph ACS_LLCORNER
    else if x =? left + width - 1 then Glyph ACS_LRCORNER
    else Glyph ACS_HLINE
  else if (x =? left) || (x =? left + width - 1) then Glyph ACS_VLINE
  else Char space.

(** * Properties *)

(** ** Rounding *)

Module F64Facts.
Import F64.
Local Open Scope Q_scope.

Lemma rne_bounds q : (Qfloor q <= rne q <= Qfloor q + 1)%Z.
Proof.
  unfold rne. destruct (q - inject_Z (Qfloor q) ?= 1 # 2);
    [destruct (Z.even (Qfloor q))|..]; lia.
Qed.

Lemma rne_Z z : rne (inject_Z z) = z.
Proof.
  unfold rne. rewrite Qfloor_Z.
  destruct (Qcompare_spec (inject_Z z - inject_Z z) (1 # 2)) as [H|H|H];
    [exfalso; lra | reflexivity | exfalso; lra].
Qed.

Lemma rne_mono q1 q2 : q1 <= q2 -> (rne q1 <= rne q2)%Z.
Proof.
  intros Hle. pose proof (Qfloor_resp_le _ _ Hle) as Hf.
  destruct (Z.eq_dec (Qfloor q1) (Qfloor q2)) as [E|N].
  - unfold rne. rewrite <- E.
    destruct (Qcompare_spec (q1 - inject_Z (Qfloor q1)) (1 # 2)) as [H1|H1|H1];
      destruct (Qcompare_spec (q2 - inject_Z (Qfloor q1)) (1 # 2)) as [H2|H2|H2];
      try (destruct (Z.even (Qfloor q1))); try lia; exfalso; lra.
  - pose proof (rne_bounds q1). pose proof (rne_bounds q2). lia.
Qed.

Lemma rne_error q : - (1 # 2) <= inject_Z (rne q) - q <= 1 # 2.
Proof.
  pose proof (Qfloor_le q) as Hlo. pose proof (Qlt_floor q) as Hhi.
  rewrite inject_Z_plus in Hhi. change (inject_Z 1) with 1 in Hhi. unfold rne.
  destruct (Qcompare_spec (q - inject_Z (Qfloor q)) (1 # 2)) as [H|H|H];
    [destruct (Z.even (Qfloor q))|..];
    rewrite ?inject_Z_plus; change (inject_Z 1) with 1; lra.
Qed.

Lemma rne_nonneg q : 0 <= q -> (0 <= rne q)%Z.
Proof. intros H. rewrite <- (rne_Z 0). apply rne_mono. exact H. Qed.

Lemma pow2_pos e : 0 < 2 ^ e.
Proof. apply Qpower_0_lt. reflexivity. Qed.

Lemma pow2_succ e : 2 ^ (e + 1) == 2 * 2 ^ e.
Proof. rewrite Qpower_plus by discriminate. change (2 ^ 1) with 2. ring. Qed.

Lemma pow2_le e1 e2 : (e1 <= e2)%Z -> 2 ^ e1 <= 2 ^ e2.
Proof. intros H. apply Qpower_le_compat_l; [exact H | discriminate]. Qed.

Lemma pow2_lt_inv e1 e2 : 2 ^ e1 < 2 ^ e2 -> (e1 < e2)%Z.
Proof. intros H. apply (Qpower_lt_compat_l_inv 2); [exact H | reflexivity]. Qed.

Lemma pow2_log2 n : (0 < n)%Z ->
  2 ^ Z.log2 n <= inject_Z n /\ inject_Z n < 2 * 2 ^ Z.log2 n.
Proof.
  intros Hn. destruct (Z.log2_spec n Hn) as [Hlo Hhi].
  pose proof (Z.log2_nonneg n) as Hnn.
  rewrite <- pow2_succ.
  change 2 with (inject_Z 2).
  rewrite <- !Zpower_Qpower by lia.
  split.
  - rewrite <- Zle_Qle. lia.
  - rewrite <- Zlt_Qlt. lia.
Qed.

Lemma ilog2_spec x : 0 < x -> 2 ^ ilog2 x <= x /\ x < 2 ^ (ilog2 x + 1).
Proof.
  intros Hx. destruct x as [n d].
  assert (Hn : (0 < n)%Z) by (unfold Qlt in Hx; simpl in Hx; lia).
  unfold ilog2. cbn [Qnum Qden].
  destruct (pow2_log2 n Hn) as [HA1 HA2].
  destruct (pow2_log2 (Z.pos d) eq_refl) as [HB1 HB2].
  pose proof (pow2_pos (Z.log2 n)) as HA.
  pose proof (pow2_pos (Z.log2 (Z.pos d))) as HB.
  set (t := (Z.log2 n - Z.log2 (Z.pos d))%Z).
  assert (HK : 2 ^ t * 2 ^ Z.log2 (Z.pos d) == 2 ^ Z.log2 n).
  { rewrite <- Qpower_plus by discriminate. unfold t.
    replace (Z.log2 n - Z.log2 (Z.pos d) + Z.log2 (Z.pos d))%Z
      with (Z.log2 n) by lia. reflexivity. }
  pose proof (pow2_pos t) as HKpos.
  assert (HD : 0 < inject_Z (Z.pos d)) by reflexivity.
  assert (Hx' : n # d == inject_Z n / inject_Z (Z.pos d)) by apply Qmake_Qdiv.
  destruct (Qle_bool (2 ^ t) (n # d)) eqn:Eb.
  - apply Qle_bool_iff in Eb. split; [exact Eb|].
    rewrite pow2_succ, Hx'. apply Qlt_shift_div_r; [exact HD|]. nra.
  - assert (Hlt : n # d < 2 ^ t).
    { apply Qnot_le_lt. intros Hc. apply Qle_bool_iff in Hc. congruence. }
    replace (t - 1 + 1)%Z with t by lia. split; [|exact Hlt].
    assert (Hh : 2 ^ t == 2 * 2 ^ (t - 1)).
    { rewrite <- pow2_succ. replace (t - 1 + 1)%Z with t by lia. reflexivity. }
    pose proof (pow2_pos (t - 1)) as Hp.
    rewrite Hx'. apply Qle_shift_div_l; [exact HD|]. nra.
Qed.

Lemma ilog2_mono x y : 0 < x -> x <= y -> (ilog2 x <= ilog2 y)%Z.
Proof.
  intros Hx Hxy.
  destruct (ilog2_spec x Hx) as [Hlo _].
  destruct (ilog2_spec y) as [_ Hhi]; [lra|].
  assert (H : 2 ^ ilog2 x < 2 ^ (ilog2 y + 1)) by lra.
  apply pow2_lt_inv in H. lia.
Qed.

Lemma ulp_pos x : 0 < ulp x.
Proof. apply pow2_pos. Qed.

(** A multiple of the unit in the last place bounds the rounded value
    as it bounds the exact one. *)
Lemma round_pos_ge x m : inject_Z m * ulp x <= x -> inject_Z m * ulp x <= round_pos x.
Proof.
  intros H. pose proof (ulp_pos x) as Hu. unfold round_pos.
  apply Qmult_le_compat_r; [|lra].
  rewrite <- Zle_Qle. rewrite <- (rne_Z m) at 1. apply rne_mono.
  apply Qle_shift_div_l; assumption.
Qed.

Lemma round_pos_le x m : x <= inject_Z m * ulp x -> round_pos x <= inject_Z m * ulp x.
Proof.
  intros H. pose proof (ulp_pos x) as Hu. unfold round_pos.
  apply Qmult_le_compat_r; [|lra].
  rewrite <- Zle_Qle. rewrite <- (rne_Z m) at 1. apply rne_mono.
  apply Qle_shift_div_r; assumption.
Qed.

Lemma ulp_scale x (k : Z) : (0 <= k)%Z ->
  inject_Z (2 ^ k) * ulp x == 2 ^ (ilog2 x - (prec - 1) + k).
Proof.
  intros Hk. unfold ulp. rewrite Zpower_Qpower by exact Hk.
  change (inject_Z 2) with 2. rewrite Qpower_plus by discriminate. ring.
Qed.

Lemma round_pos_lower x : 0 < x -> 2 ^ ilog2 x <= round_pos x.
Proof.
  intros Hx. destruct (ilog2_spec x Hx) as [Hlo _].
  pose proof (ulp_scale x (prec - 1) ltac:(unfold prec; lia)) as E.
  replace (ilog2 x - (prec - 1) + (prec - 1))%Z with (ilog2 x) in E by lia.
  rewrite <- E. apply round_pos_ge. rewrite E. exact Hlo.
Qed.

Lemma round_pos_upper x : 0 < x -> round_pos x <= 2 ^ (ilog2 x + 1).
Proof.
  intros Hx. destruct (ilog2_spec x Hx) as [_ Hhi].
  pose proof (ulp_scale x prec ltac:(unfold prec; lia)) as E.
  replace (ilog2 x - (prec - 1) + prec)%Z with (ilog2 x + 1)%Z in E by lia.
  rewrite <- E. apply round_pos_le. rewrite E. lra.
Qed.

Lemma round_pos_pos x : 0 < x -> 0 < round_pos x.
Proof.
  intros Hx. pose proof (round_pos_lower x Hx). pose proof (pow2_pos (ilog2 x)). lra.
Qed.

Lemma round_pos_mono x y : 0 < x -> x <= y -> round_pos x <= round_pos y.
Proof.
  intros Hx Hxy. assert (Hy : 0 < y) by lra.
  pose proof (ilog2_mono x y Hx Hxy) as He.
  destruct (Z.eq_dec (ilog2 x) (ilog2 y)) as [E|N].
  - unfold round_pos, ulp. rewrite E.
    pose proof (pow2_pos (ilog2 y - (prec - 1))) as Hu.
    apply Qmult_le_compat_r; [|lra].
    rewrite <- Zle_Qle. apply rne_mono.
    apply Qmult_le_compat_r; [exact Hxy|].
    apply Qlt_le_weak, Qinv_lt_0_compat, Hu.
  - pose proof (round_pos_upper x Hx). pose proof (round_pos_lower y Hy).
    pose proof (pow2_le (ilog2 x + 1) (ilog2 y) ltac:(lia)). lra.
Qed.

Lemma round_nonneg x : 0 <= x -> 0 <= round x.
Proof.
  intros Hx. unfold round. rewrite Qred_correct.
  destruct (Qcompare_spec x 0) as [H|H|H]; [lra | lra |].
  apply Qlt_le_weak, round_pos_pos, H.
Qed.

Lemma round_mono x y : x <= y -> round x <= round y.
Proof.
  intros Hxy. unfold round. rewrite !Qred_correct.
  destruct (Qcompare_spec x 0) as [Hx|Hx|Hx];
    destruct (Qcompare_spec y 0) as [Hy|Hy|Hy]; try lra.
  - pose proof (round_pos_pos y Hy). lra.
  - pose proof (round_pos_pos (- x) ltac:(lra)). lra.
  - apply Qopp_le_compat, round_pos_mono; lra.
  - pose proof (round_pos_pos (- x) ltac:(lra)).
    pose proof (round_pos_pos y Hy). lra.
  - apply round_pos_mono; assumption.
Qed.

Lemma of_int_mono m n : (m <= n)%Z -> of_int m <= of_int n.
Proof. intros H. apply round_mono. rewrite <- Zle_Qle. exact H. Qed.

Lemma of_int_nonneg n : (0 <= n)%Z -> 0 <= of_int n.
Proof. intros H. apply round_nonneg. change 0 with (inject_Z 0). rewrite <- Zle_Qle. exact H. Qed.

Lemma mul_mono_l x y z : 0 <= z -> x <= y -> mul x z <= mul y z.
Proof. intros Hz Hxy. apply round_mono, Qmult_le_compat_r; assumption. Qed.

Lemma round2_mono x y : x <= y -> round2 x <= round2 y.
Proof.
  intros Hxy. apply round_mono.
  apply Qmult_le_compat_r; [|discriminate].
  rewrite <- Zle_Qle. apply rne_mono. lra.
Qed.

Lemma mul_nonneg x y : 0 <= x -> 0 <= y -> 0 <= mul x y.
Proof. intros Hx Hy. apply round_nonneg, Qmult_le_0_compat; assumption. Qed.

Lemma round2_nonneg x : 0 <= x -> 0 <= round2 x.
Proof.
  intros Hx. assert (E : round2 0 = 0) by reflexivity.
  rewrite <- E at 1. apply round2_mono, Hx.
Qed.

(** [round2] goes through a decimal with two places within half a
    hundredth of its argument. *)
Lemma round2_decimal x :
  exists k : Z, round2 x = round (inject_Z k / 100) /\
                - (1 # 200) <= inject_Z k / 100 - x <= 1 # 200.
Proof.
  exists (rne (x * 100)). split; [reflexivity|].
  pose proof (rne_error (x * 100)).
  unfold Qdiv. change (/ 100) with (1 # 100). lra.
Qed.

Lemma gtb_int_spec x n : gtb_int x n = true <-> inject_Z n < x.
Proof.
  unfold gtb_int. rewrite negb_true_iff. split.
  - intros H. apply Qnot_le_lt. intros Hc. apply Qle_bool_iff in Hc. congruence.
  - intros H. destruct (Qle_bool x (inject_Z n)) eqn:E; [|reflexivity].
    apply Qle_bool_iff in E. lra.
Qed.

End F64Facts.

(** ** Entropy estimator and strength analyzer *)

Section AnalyzerFacts.
Context (P : platform).

Lemma lower_nil : lower P [] = [].
Proof. reflexivity. Qed.

Lemma nil_not_common : [] ∉ COMMONS.
Proof. apply (bool_decide_eq_false_1 _). vm_compute. reflexivity. Qed.

Lemma common_nonempty pw : lower P pw ∈ COMMONS -> pw <> [].
Proof.
  intros H ->. rewrite lower_nil in H. exact (nil_not_common H).
Qed.

Lemma len_nonempty {A} (l : list A) : l <> [] -> 0 < len l.
Proof. destruct l; [congruence|]. unfold len. simpl. lia. Qed.

Lemma calc_entropy_pool pw :
  calc_entropy P pw =
  if (pool_size P pw =? 0) || (len pw =? 0) then 0%Q
  else F64.round2 (F64.mul (F64.of_int (len pw)) (math_log2 P (pool_size P pw))).
Proof.
  unfold calc_entropy, pool_size, has_lower, has_upper, has_digit, has_symbol.
  destruct (existsb (islower P) pw), (existsb (isupper P) pw),
    (existsb (isdigit P) pw), (existsb (fun c => negb (isalnum P c)) pw);
    reflexivity.
Qed.

Lemma pool_size_cases pw :
  pool_size P pw = 0 \/ 10 <= pool_size P pw <= 94.
Proof.
  unfold pool_size.
  destruct (has_lower P pw), (has_upper P pw), (has_digit P pw),
    (has_symbol P pw); lia.
Qed.

(** Enter the scoring branch of [analyze_password], keeping its
    bindings folded. *)
Ltac scoring P pw Hne Hnc :=
  let t := eval cbv beta delta [analyze_password] in (analyze_password P pw) in
  change (analyze_password P pw) with t;
  destruct pw; [congruence|]; cbv iota;
  match goal with
  | |- context [bool_decide ?Q] =>
      let Hb := fresh in
      destruct (bool_decide Q) eqn:Hb;
      [apply bool_decide_eq_true_1 in Hb; contradiction | clear Hb]
  end.

Lemma analyze_score pw :
  pw <> [] -> lower P pw ∉ COMMONS ->
  score (analyze_password P pw) = count_true (criteria P pw).
Proof.
  intros Hne Hnc. scoring P pw Hne Hnc.
  lazy beta iota zeta
    delta [score criteria count_true foldr has_lower has_upper has_digit has_symbol].
  match goal with
  | |- context [calc_entropy P ?l] =>
      generalize (F64.gtb_int (calc_entropy P l) 60),
        (existsb (fun c => negb (isalnum P c)) l), (existsb (isdigit P) l),
        (existsb (isupper P) l), (existsb (islower P) l),
        (12 <=? len l), (8 <=? len l)
  end.
  intros [] [] [] [] [] [] []; reflexivity.
Qed.

Lemma analyze_rating pw :
  pw <> [] -> lower P pw ∉ COMMONS ->
  rating (analyze_password P pw) = rating_of (score (analyze_password P pw)).
Proof.
  intros Hne Hnc. scoring P pw Hne Hnc.
  lazy beta iota zeta delta [score rating].
  match goal with |- _ = rating_of ?S => generalize S end.
  intros z. unfold rating_of.
  destruct (Z.leb_spec z 2), (Z.leb_spec z 4), (Z.leb_spec z 6);
    repeat case_decide; first [reflexivity | lia].
Qed.

Lemma analyze_suggestions pw :
  pw <> [] -> lower P pw ∉ COMMONS ->
  suggestions (analyze_password P pw) = suggestions_spec P pw.
Proof.
  intros Hne Hnc. scoring P pw Hne Hnc.
  lazy beta iota zeta
    delta [suggestions suggestions_spec checks has_lower has_upper has_digit has_symbol].
  repeat match goal with
         | |- context [String ?a ?s] => generalize (String a s)
         end.
  match goal with
  | |- context [@bool_decide ?Q ?D] => generalize (@bool_decide Q D)
  end.
  match goal with
  | |- context [existsb (isdigit P) ?l] =>
      generalize (existsb (fun c => negb (isalnum P c)) l), (existsb (isdigit P) l),
        (existsb (islower P) l), (existsb (isupper P) l), (len l <? 12)
  end.
  intros [] [] [] [] [] []; reflexivity.
Qed.

(** C1: for a non-empty string that is not, case-insensitively, a common
    password, the score is the number of satisfied criteria among length
    >= 8, length >= 12, lowercase, uppercase, digit, symbol present and
    entropy > 60; hence it lies in [0, 7]. *)
Theorem score_counts_criteria pw :
  pw <> [] -> lower P pw ∉ COMMONS ->
  score (analyze_password P pw) = count_true (criteria P pw) /\
  0 <= score (analyze_password P pw) <= 7.
Proof.
  intros Hne Hnc. rewrite (analyze_score pw Hne Hnc).
  split; [reflexivity|]. unfold criteria, count_true. cbn [foldr].
  generalize (8 <=? len pw), (12 <=? len pw), (has_lower P pw),
    (has_upper P pw), (has_digit P pw), (has_symbol P pw),
    (F64.gtb_int (calc_entropy P pw) 60).
  intros [] [] [] [] [] [] []; cbn; lia.
Qed.

(** C2: for a non-empty, non-common string the rating is a function of
    the integer score alone: 0-2 Weak, 3-4 Medium, 5-6 Strong, 7 Very
    Strong. *)
Theorem rating_thresholds pw :
  pw <> [] -> lower P pw ∉ COMMONS ->
  let r := analyze_password P pw in
  rating r = rating_of (score r) /\
  (0 <= score r <= 2 -> rating r = "Weak"%string) /\
  (3 <= score r <= 4 -> rating r = "Medium"%string) /\
  (5 <= score r <= 6 -> rating r = "Strong"%string) /\
  (score r = 7 -> rating r = "Very Strong"%string).
Proof.
  intros Hne Hnc r. subst r. rewrite (analyze_rating pw Hne Hnc).
  generalize (score (analyze_password P pw)). intros z.
  split; [reflexivity|]. unfold rating_of.
  repeat split; intros; repeat case_decide; first [reflexivity | lia].
Qed.

Lemma analyze_common pw :
  lower P pw ∈ COMMONS ->
  analyze_password P pw =
  {| score := 0;
     entropy := calc_entropy P pw;
     rating := "Very Weak (common)";
     suggestions := ["Use a unique password not in common lists";
                     "Increase length";
                     "Add symbols and mixed case"]%string |}.
Proof.
  intros Hc. pose proof (common_nonempty pw Hc) as Hne.
  unfold analyze_password. destruct pw; [congruence|].
  rewrite (bool_decide_eq_true_2 _ Hc). reflexivity.
Qed.

(** C3: a string whose lowercased form is a common password gets score 0,
    rating "Very Weak (common)", the entropy of the estimator and the
    fixed three suggestions, whatever its length or complexity. *)
Theorem common_override pw :
  lower P pw ∈ COMMONS ->
  let r := analyze_password P pw in
  score r = 0 /\ rating r = "Very Weak (common)"%string /\
  entropy r = calc_entropy P pw /\
  suggestions r = ["Use a unique password not in common lists";
                   "Increase length";
                   "Add symbols and mixed case"]%string.
Proof.
  intros Hc r. subst r. rewrite (analyze_common pw Hc). repeat split.
Qed.

(** C4: the estimator returns 0 for the empty string and for an empty
    pool, and otherwise [len * log2(pool)] (binary64 product) rounded to
    two decimal places, the pool being the sum of 26, 26, 10 and 32 over
    the classes present. *)
Theorem calc_entropy_formula pw :
  ((pw = [] \/ pool_size P pw = 0) -> calc_entropy P pw = 0%Q) /\
  (pw <> [] -> pool_size P pw <> 0 ->
   let x := F64.mul (F64.of_int (len pw)) (math_log2 P (pool_size P pw)) in
   calc_entropy P pw = F64.round2 x /\
   exists k : Z,
     calc_entropy P pw = F64.round (inject_Z k / 100) /\
     (- (1 # 200) <= inject_Z k / 100 - x <= 1 # 200)%Q).
Proof.
  rewrite calc_entropy_pool. split.
  - intros [-> | ->]; [|reflexivity].
    change (len []) with 0. rewrite orb_true_r. reflexivity.
  - intros Hne Hp x. pose proof (len_nonempty pw Hne) as Hl.
    destruct (Z.eqb_spec (pool_size P pw) 0) as [|_]; [contradiction|].
    destruct (Z.eqb_spec (len pw) 0) as [|_]; [lia|].
    cbn [orb]. split; [reflexivity|]. apply F64Facts.round2_decimal.
Qed.

(** C5: the empty string gets score 0, entropy 0.0, rating "Empty" and
    the single hint to type something. *)
Theorem analyze_empty :
  analyze_password P [] =
  {| score := 0; entropy := 0; rating := "Empty";
     suggestions := ["Type a password"%string] |}.
Proof. reflexivity. Qed.

(** C6: for a non-empty, non-common string the suggestions are the hints
    of the unmet checks in the fixed order (length < 12, no uppercase, no
    lowercase, no digit, no symbol, a space present), or the single
    passphrase recommendation when none fires; for every string the list
    is non-empty. *)
Theorem suggestions_in_order pw :
  (pw <> [] -> lower P pw ∉ COMMONS ->
   suggestions (analyze_password P pw) = suggestions_spec P pw) /\
  suggestions (analyze_password P pw) <> [].
Proof.
  split; [apply analyze_suggestions|].
  destruct (decide (pw = [])) as [-> | Hne]; [discriminate|].
  destruct (decide (lower P pw ∈ COMMONS)) as [Hc | Hnc].
  - rewrite (analyze_common pw Hc). discriminate.
  - rewrite (analyze_suggestions pw Hne Hnc). unfold suggestions_spec.
    destruct (fired (checks P pw)); discriminate.
Qed.

Lemma classes_present_pool c s :
  classes_present P c s -> pool_size P (s ++ [c]) = pool_size P s.
Proof.
  intros (Hl & Hu & Hd & Hs).
  unfold pool_size, has_lower, has_upper, has_digit, has_symbol in *.
  rewrite !existsb_app. cbn [existsb]. rewrite !orb_false_r.
  destruct (islower P c), (isupper P c), (isdigit P c), (isalnum P c);
    cbn [negb];
    rewrite ?Hl, ?Hu, ?Hd, ?Hs by reflexivity;
    rewrite ?orb_true_r, ?orb_false_r; reflexivity.
Qed.

(** For a fixed pool the estimate is monotone in the length. *)
Lemma calc_entropy_mono_len s s' :
  (forall p, 1 <= p -> (0 <= math_log2 P p)%Q) ->
  pool_size P s = pool_size P s' -> len s <= len s' ->
  (calc_entropy P s <= calc_entropy P s')%Q.
Proof.
  intros Hlog Hp Hl. rewrite !calc_entropy_pool, <- Hp.
  assert (H0 : 0 <= len s) by (unfold len; lia).
  destruct (pool_size_cases s) as [Hz | Hpos].
  - rewrite Hz. cbn. apply Qle_refl.
  - destruct (Z.eqb_spec (pool_size P s) 0) as [|_]; [lia|]. cbn [orb].
    assert (HL : (0 <= math_log2 P (pool_size P s))%Q) by (apply Hlog; lia).
    destruct (Z.eqb_spec (len s) 0) as [Hs0 | Hs0];
      destruct (Z.eqb_spec (len s') 0) as [Hs0' | Hs0']; try lia.
    + apply Qle_refl.
    + apply F64Facts.round2_nonneg, F64Facts.mul_nonneg; [|exact HL].
      apply F64Facts.of_int_nonneg. lia.
    + apply F64Facts.round2_mono, F64Facts.mul_mono_l; [exact HL|].
      apply F64Facts.of_int_mono, Hl.
Qed.

(** C7: appending a character whose classes all occur in [s] already
    (so the pool is unchanged) never decreases the rounded entropy. *)
Theorem entropy_monotone s c :
  (forall p, 1 <= p -> (0 <= math_log2 P p)%Q) ->
  classes_present P c s ->
  (calc_entropy P s <= calc_entropy P (s ++ [c]))%Q.
Proof.
  intros Hlog Hc. apply calc_entropy_mono_len; [exact Hlog | |].
  - symmetry. apply classes_present_pool, Hc.
  - unfold len. rewrite length_app. lia.
Qed.

End AnalyzerFacts.

(** ** The random source *)

Lemma returns_ret {A} (a : A) (Q : A -> Prop) : Q a -> returns (ret a) Q.
Proof. intros H t. exists a, t. split; [reflexivity | exact H]. Qed.

Lemma returns_bind {A B} (m : M A) (k : A -> M B) (Q : A -> Prop) (R : B -> Prop) :
  returns m Q -> (forall a, Q a -> returns (k a) R) -> returns (bind m k) R.
Proof.
  intros Hm Hk t. destruct (Hm t) as (a & t1 & E & Ha).
  destruct (Hk a Ha t1) as (b & t2 & E2 & Hb).
  exists b, t2. unfold bind. rewrite E. split; assumption.
Qed.

Lemma returns_weaken {A} (m : M A) (Q R : A -> Prop) :
  returns m Q -> (forall a, Q a -> R a) -> returns m R.
Proof.
  intros Hm HQR t. destruct (Hm t) as (a & t1 & E & Ha).
  exists a, t1. split; [exact E | apply HQR, Ha].
Qed.

Lemma randbelow_returns (n : nat) :
  (0 < n)%nat -> returns (randbelow n) (fun i => (i < n)%nat).
Proof.
  intros Hn [|r t]; eexists _, _; (split; [reflexivity|]); [exact Hn|].
  apply Nat.mod_upper_bound. lia.
Qed.

(** Every index of [range(n)] is an outcome of some tape. *)
Lemma randbelow_any (n i : nat) (t : rng) :
  (i < n)%nat -> randbelow n (i :: t) = (Ok i, t).
Proof. intros Hi. unfold randbelow. rewrite Nat.mod_small by exact Hi. reflexivity. Qed.

Lemma getitem_returns {A} (seq : list A) (i : nat) :
  (i < List.length seq)%nat -> returns (getitem seq i) (fun a => seq !! i = Some a).
Proof.
  intros Hi. unfold getitem.
  destruct (lookup_lt_is_Some_2 seq i Hi) as [a Ha]. rewrite Ha.
  apply returns_ret. reflexivity.
Qed.

Lemma setitem_returns {A} (seq : list A) (i : nat) (a : A) :
  (i < List.length seq)%nat -> returns (setitem seq i a) (fun r => r = <[i:=a]> seq).
Proof.
  intros Hi. unfold setitem. destruct (decide (i < List.length seq)%nat); [|lia].
  apply returns_ret. reflexivity.
Qed.

Lemma choice_returns {A} (seq : list A) :
  seq <> [] -> returns (choice seq) (fun c => c ∈ seq).
Proof.
  intros Hne. unfold choice. destruct seq as [|a0 seq0] eqn:E; [congruence|].
  rewrite <- E in *.
  apply returns_bind with (Q := fun i => (i < List.length seq)%nat).
  - apply randbelow_returns. rewrite E. simpl. lia.
  - intros i Hi. eapply returns_weaken; [apply getitem_returns, Hi|].
    intros a Ha. apply list_elem_of_lookup. exists i. exact Ha.
Qed.

(** Exchanging two positions permutes the list. *)
Lemma insert_head_perm {A} (l : list A) (j : nat) (a b : A) :
  l !! j = Some b -> b :: <[j:=a]> l ≡ₚ a :: l.
Proof.
  revert j. induction l as [|x l IH]; intros [|j] Hj; simplify_eq/=.
  - apply Permutation_swap.
  - rewrite (Permutation_swap x b), (IH j Hj). apply Permutation_swap.
Qed.

Lemma exchange_perm {A} (x : list A) (i j : nat) (xi xj : A) :
  x !! i = Some xi -> x !! j = Some xj -> <[j:=xi]> (<[i:=xj]> x) ≡ₚ x.
Proof.
  revert i j. induction x as [|a x IH]; intros [|i] [|j] Hi Hj; simplify_eq/=.
  - reflexivity.
  - apply insert_head_perm, Hj.
  - apply insert_head_perm, Hi.
  - f_equiv. apply IH; assumption.
Qed.

Lemma shuffle_from_returns {A} (i : nat) (x : list A) :
  (i < List.length x \/ i = 0)%nat ->
  returns (shuffle_from i x) (fun y => y ≡ₚ x).
Proof.
  revert x. induction i as [|i IH]; intros x Hi.
  - apply returns_ret. reflexivity.
  - assert (Hlt : (S i < List.length x)%nat) by lia. cbn [shuffle_from].
    eapply returns_bind; [apply (randbelow_returns (S i + 1)); lia|].
    intros j Hj. cbv beta in Hj.
    eapply returns_bind; [apply (getitem_returns x j); lia|].
    intros xj Hxj. cbv beta in Hxj.
    eapply returns_bind; [apply (getitem_returns x (S i)); lia|].
    intros xi Hxi. cbv beta in Hxi.
    eapply returns_bind; [apply (setitem_returns x (S i) xj); lia|].
    intros x1 ->.
    eapply returns_bind;
      [apply (setitem_returns (<[S i:=xj]> x) j xi); rewrite length_insert; lia|].
    intros x2 ->.
    eapply returns_weaken.
    + apply IH. rewrite !length_insert. lia.
    + intros y Hy. cbv beta in Hy. rewrite Hy.
      apply exchange_perm; assumption.
Qed.

Lemma shuffle_returns {A} (x : list A) :
  returns (shuffle x) (fun y => y ≡ₚ x).
Proof.
  unfold shuffle. apply shuffle_from_returns.
  destruct x; simpl; lia.
Qed.

(** ** Password generator *)

Lemma allchars_nonempty : allchars <> [].
Proof. discriminate. Qed.

(** The padding loop ends, having appended characters of [allchars]
    until the length is at least [n]. *)
Lemma fill_returns (n : Z) (pwd : list char) :
  returns (fill n pwd)
    (fun r => exists ext, r = pwd ++ ext /\ Forall (fun c => c ∈ allchars) ext /\
                          len r = Z.max n (len pwd)).
Proof.
  funelim (fill n pwd).
  - eapply returns_bind; [apply choice_returns, allchars_nonempty|].
    intros c Hc. cbv beta in Hc.
    eapply returns_weaken; [apply (H c [])|].
    intros r (ext & -> & Hext & Hlen). exists (c :: ext).
    split; [rewrite <- app_assoc; reflexivity|].
    split; [constructor; assumption|].
    rewrite Hlen. unfold len in *. rewrite length_app. simpl. lia.
  - apply returns_ret. exists []. rewrite app_nil_r.
    split; [reflexivity|]. split; [constructor|]. lia.
Qed.

Lemma lowers_nonempty : lowers <> [].
Proof. discriminate. Qed.
Lemma uppers_nonempty : uppers <> [].
Proof. discriminate. Qed.
Lemma digits_nonempty : digits <> [].
Proof. discriminate. Qed.
Lemma symbols_nonempty : symbols <> [].
Proof. discriminate. Qed.

(** The generator returns a permutation of its four guaranteed
    characters followed by the padding, of length [max length 4]. *)
Lemma generate_returns (length : Z) :
  returns (generate_suggestion length)
    (fun s => exists c1 c2 c3 c4 ext,
       c1 ∈ lowers /\ c2 ∈ uppers /\ c3 ∈ digits /\ c4 ∈ symbols /\
       Forall (fun c => c ∈ allchars) ext /\
       s ≡ₚ [c1; c2; c3; c4] ++ ext /\
       len s = Z.max length 4).
Proof.
  unfold generate_suggestion.
  eapply returns_bind; [apply choice_returns, lowers_nonempty|]. intros c1 H1.
  eapply returns_bind; [apply choice_returns, uppers_nonempty|]. intros c2 H2.
  eapply returns_bind; [apply choice_returns, digits_nonempty|]. intros c3 H3.
  eapply returns_bind; [apply choice_returns, symbols_nonempty|]. intros c4 H4.
  cbv beta zeta in *.
  eapply returns_bind; [apply fill_returns|].
  intros pwd (ext & -> & Hext & Hlen).
  eapply returns_bind; [apply shuffle_returns|].
  intros s Hs. cbv beta in Hs. apply returns_ret.
  exists c1, c2, c3, c4, ext. repeat (split; [assumption|]).
  unfold len in *. rewrite (Permutation_length Hs). exact Hlen.
Qed.

Lemma one_of_each_perm (s : str) c1 c2 c3 c4 ext :
  c1 ∈ lowers -> c2 ∈ uppers -> c3 ∈ digits -> c4 ∈ symbols ->
  s ≡ₚ [c1; c2; c3; c4] ++ ext -> one_of_each s.
Proof.
  intros H1 H2 H3 H4 Hs.
  repeat split; [exists c1 | exists c2 | exists c3 | exists c4];
    (split; [rewrite Hs, elem_of_app, !elem_of_cons; auto 10 | assumption]).
Qed.

(** C8: for every requested length N >= 4 and every tape, the generator
    returns a string of length exactly N with at least one lowercase
    letter, one uppercase letter, one digit and one symbol of its set. *)
Theorem generate_includes_all (length : Z) (t : rng) :
  4 <= length ->
  exists s t', generate_suggestion length t = (Ok s, t') /\
               len s = length /\ one_of_each s.
Proof.
  intros Hl.
  destruct (generate_returns length t)
    as (s & t' & E & c1 & c2 & c3 & c4 & ext & H1 & H2 & H3 & H4 & _ & Hs & Hlen).
  exists s, t'. split; [exact E|]. split; [lia|].
  eapply one_of_each_perm; eassumption.
Qed.

(** C9, as the generator behaves: for every requested length below 4 it
    signals no error; it returns a password of four characters, longer
    than requested. *)
Theorem generate_short_no_error (length : Z) (t : rng) :
  length < 4 ->
  (forall e, fst (generate_suggestion length t) <> Raise e) /\
  exists s, fst (generate_suggestion length t) = Ok s /\
            len s = 4 /\ length < len s.
Proof.
  intros Hl.
  destruct (generate_returns length t)
    as (s & t' & E & c1 & c2 & c3 & c4 & ext & _ & _ & _ & _ & _ & _ & Hlen).
  rewrite E. cbn [fst]. split; [discriminate|].
  exists s. split; [reflexivity|]. lia.
Qed.

(** C10: for every requested length N < 4, zero and negative ones
    included, and every tape, the generator raises nothing and returns
    exactly four characters: one lowercase letter, one uppercase letter,
    one digit and one symbol, in some order. *)
Theorem generate_short_is_four (length : Z) (t : rng) :
  length < 4 ->
  exists s t', generate_suggestion length t = (Ok s, t') /\
    len s = 4 /\ one_of_each s /\
    exists c1 c2 c3 c4,
      c1 ∈ lowers /\ c2 ∈ uppers /\ c3 ∈ digits /\ c4 ∈ symbols /\
      s ≡ₚ [c1; c2; c3; c4].
Proof.
  intros Hl.
  destruct (generate_returns length t)
    as (s & t' & E & c1 & c2 & c3 & c4 & ext & H1 & H2 & H3 & H4 & _ & Hs & Hlen).
  assert (Hext : ext = []).
  { assert (Hn : len s = len ([c1; c2; c3; c4] ++ ext))
      by (unfold len; rewrite (Permutation_length Hs); reflexivity).
    unfold len in Hn, Hlen. rewrite length_app in Hn. simpl in Hn.
    destruct ext; [reflexivity | simpl in Hn; lia]. }
  subst ext. rewrite app_nil_r in Hs.
  exists s, t'. split; [exact E|]. split; [lia|].
  split; [eapply (one_of_each_perm s c1 c2 c3 c4 []); try eassumption;
          rewrite app_nil_r; exact Hs|].
  exists c1, c2, c3, c4. repeat (split; [assumption|]). exact Hs.
Qed.

Lemma lowers_islower P : Forall (fun c => islower P c = true) lowers.
Proof. repeat constructor. Qed.

Lemma uppers_isupper P : Forall (fun c => isupper P c = true) uppers.
Proof. repeat constructor. Qed.

Lemma digits_isdigit P : Forall (fun c => isdigit P c = true) digits.
Proof. repeat constructor. Qed.

Lemma symbols_not_alnum P : Forall (fun c => negb (isalnum P c) = true) symbols.
Proof. repeat constructor. Qed.

(** Generated passwords score on every class of the analyzer, whatever
    the Unicode tables. *)
Lemma one_of_each_classes (P : platform) (s : str) :
  one_of_each s ->
  has_lower P s = true /\ has_upper P s = true /\
  has_digit P s = true /\ has_symbol P s = true.
Proof.
  intros ((c1 & I1 & H1) & (c2 & I2 & H2) & (c3 & I3 & H3) & (c4 & I4 & H4)).
  unfold has_lower, has_upper, has_digit, has_symbol.
  rewrite !existsb_exists.
  repeat split; [exists c1 | exists c2 | exists c3 | exists c4];
    (split; [apply list_elem_of_In; assumption|]).
  - exact (proj1 (Forall_forall _ _) (lowers_islower P) c1 H1).
  - exact (proj1 (Forall_forall _ _) (uppers_isupper P) c2 H2).
  - exact (proj1 (Forall_forall _ _) (digits_isdigit P) c3 H3).
  - exact (proj1 (Forall_forall _ _) (symbols_not_alnum P) c4 H4).
Qed.

(** ** The claims at concrete inputs *)

Lemma log2_table_nonneg p : (0 <= log2_table p)%Q.
Proof.
  assert (D : (0 <= inject_Z (Z.log2 p))%Q).
  { change 0%Q with (inject_Z 0). rewrite <- Zle_Qle. apply Z.log2_nonneg. }
  unfold log2_table.
  repeat match goal with
         | |- context [match ?x with _ => _ end] => destruct x
         end; first [exact D | discriminate].
Qed.

Lemma uncommon_witness_input :
  py "Tr0ub4dor&3" <> [] /\ lower ascii_runtime (py "Tr0ub4dor&3") ∉ COMMONS.
Proof.
  split; [discriminate|].
  apply (bool_decide_eq_false_1 _). vm_compute. reflexivity.
Defined.

Lemma score_counts_criteria_witness :
  score (analyze_password ascii_runtime (py "Tr0ub4dor&3")) =
    count_true (criteria ascii_runtime (py "Tr0ub4dor&3")) /\
  0 <= score (analyze_password ascii_runtime (py "Tr0ub4dor&3")) <= 7.
Proof.
  apply (score_counts_criteria ascii_runtime (py "Tr0ub4dor&3"));
    apply uncommon_witness_input.
Defined.

Lemma rating_thresholds_witness :
  rating (analyze_password ascii_runtime (py "Tr0ub4dor&3")) = "Strong"%string.
Proof.
  apply (rating_thresholds ascii_runtime (py "Tr0ub4dor&3"));
    [apply uncommon_witness_input | apply uncommon_witness_input |].
  vm_compute. split; discriminate.
Defined.

Lemma common_override_witness :
  lower ascii_runtime (py "PassWord") ∈ COMMONS /\
  rating (analyze_password ascii_runtime (py "PassWord")) =
    "Very Weak (common)"%string.
Proof.
  assert (H : lower ascii_runtime (py "PassWord") ∈ COMMONS).
  { apply (bool_decide_eq_true_1 _). vm_compute. reflexivity. }
  split; [exact H|].
  apply (common_override ascii_runtime (py "PassWord") H).
Defined.

Lemma calc_entropy_formula_witness :
  calc_entropy ascii_runtime (py "Tr0ub4dor&3") =
  F64.round2 (F64.mul (F64.of_int 11) (log2_table 94)).
Proof.
  apply (calc_entropy_formula ascii_runtime (py "Tr0ub4dor&3"));
    vm_compute; discriminate.
Defined.

Lemma suggestions_in_order_witness :
  suggestions (analyze_password ascii_runtime (py "Tr0ub4dor&3")) =
  ["Increase length to 12+ characters"%string].
Proof.
  apply (suggestions_in_order ascii_runtime (py "Tr0ub4dor&3"));
    apply uncommon_witness_input.
Defined.

Lemma entropy_monotone_witness :
  classes_present ascii_runtime 100%N (py "abc") /\
  (calc_entropy ascii_runtime (py "abc") <=
   calc_entropy ascii_runtime (py "abc" ++ [100%N]))%Q.
Proof.
  assert (H : classes_present ascii_runtime 100%N (py "abc")).
  { repeat split; vm_compute; congruence. }
  split; [exact H|].
  apply (entropy_monotone ascii_runtime (py "abc") 100%N); [|exact H].
  intros p _. apply log2_table_nonneg.
Defined.

Lemma generate_includes_all_witness :
  exists s t', generate_suggestion 16 [3; 1; 4; 1; 5; 9; 2; 6]%nat = (Ok s, t') /\
               len s = 16 /\ one_of_each s.
Proof.
  apply (generate_includes_all 16 [3; 1; 4; 1; 5; 9; 2; 6]%nat). lia.
Defined.

Lemma generate_short_no_error_witness :
  exists s, fst (generate_suggestion 3 []) = Ok s /\ len s = 4 /\ 3 < len s.
Proof.
  apply (generate_short_no_error 3 []). lia.
Defined.

Lemma generate_short_is_four_witness :
  exists s t', generate_suggestion (-2) [7; 7; 7]%nat = (Ok s, t') /\
    len s = 4 /\ one_of_each s /\
    exists c1 c2 c3 c4,
      c1 ∈ lowers /\ c2 ∈ uppers /\ c3 ∈ digits /\ c4 ∈ symbols /\
      s ≡ₚ [c1; c2; c3; c4].
Proof.
  apply (generate_short_is_four (-2) [7; 7; 7]%nat). lia.
Defined.

(** A request for three characters is answered with four and without
    any error. *)
Lemma generate_short_counterexample :
  3 < 4 /\
  generate_suggestion 3 [] = (Ok (py "A0!a"), []) /\
  ~ (exists e, fst (generate_suggestion 3 []) = Raise e).
Proof.
  split; [lia|]. split; [vm_compute; reflexivity|].
  intros [e He]. vm_compute in He. discriminate He.
Qed.

(** ** The arithmetic against the reference model

    On every reachable pool size and every length up to 32 the rounded
    product agrees with the IEEE 754 operations of the Standard Library,
    and each table entry [l] for a pool [p] satisfies
    [2^a <= p^128 < 2^(a+1)] with [a] the integer part of [128 * l]. *)

Example entropy_agrees_with_reference :
  forallb (fun p =>
    forallb (fun n =>
      Qeq_bool (F64.round2 (F64.mul (F64.of_int n) (log2_table p)))
               (SF_entropy n (log2_table p)))
      (Z.of_nat <$> seq 1 32)) pools = true.
Proof. vm_compute. reflexivity. Qed.

Example log2_table_brackets :
  forallb (fun p =>
    let a := Qfloor (log2_table p * 128) in
    (2 ^ a <=? p ^ 128) && (p ^ 128 <? 2 ^ (a + 1))) pools = true.
Proof. vm_compute. reflexivity. Qed.

Example generate_default :
  fst (generate_suggestion default_length [2; 7; 1; 8; 2; 8; 1; 8; 2; 8; 4; 5; 9]%nat)
  = Ok (py "H1(cibiciefjaaac").
Proof. vm_compute. reflexivity. Qed.

Example analyze_troubador :
  analyze_password ascii_runtime (py "Tr0ub4dor&3") =
  {| score := 6;
     entropy := F64.round (721 # 10);
     rating := "Strong";
     suggestions := ["Increase length to 12+ characters"%string] |}.
Proof. vm_compute. reflexivity. Qed.

(** * Further properties of the code *)

(** ** Analyzer *)

(** Expose the third branch of [analyze_password] without unfolding its
    bindings. *)
Ltac third_branch P pw Hne Hnc :=
  let t := eval cbv beta delta [analyze_password] in (analyze_password P pw) in
  change (analyze_password P pw) with t;
  destruct pw; [congruence|]; cbv iota;
  match goal with
  | |- context [bool_decide ?Q] =>
      let Hb := fresh in
      destruct (bool_decide Q) eqn:Hb;
      [apply bool_decide_eq_true_1 in Hb; contradiction | clear Hb]
  end.

Ltac eval_fired :=
  match goal with
  | |- context [fired ?l] =>
      let r := eval vm_compute in (fired l) in change (fired l) with r
  end.

Section AnalyzerMore.
Context (P : platform).

Lemma analysis_eq (a b : analysis) :
  score a = score b -> entropy a = entropy b -> rating a = rating b ->
  suggestions a = suggestions b -> a = b.
Proof. destruct a, b. cbn. intros -> -> -> ->. reflexivity. Qed.

Lemma analyze_entropy pw : entropy (analyze_password P pw) = calc_entropy P pw.
Proof.
  destruct (decide (pw = [])) as [-> | Hne]; [reflexivity|].
  destruct (decide (lower P pw ∈ COMMONS)) as [Hc | Hnc].
  - rewrite (analyze_common P pw Hc). reflexivity.
  - third_branch P pw Hne Hnc. lazy beta iota zeta delta [entropy]. reflexivity.
Qed.

Lemma count_true_criteria_range pw : 0 <= count_true (criteria P pw) <= 7.
Proof.
  unfold criteria, count_true. cbn [foldr].
  generalize (8 <=? len pw), (12 <=? len pw), (has_lower P pw),
    (has_upper P pw), (has_digit P pw), (has_symbol P pw),
    (F64.gtb_int (calc_entropy P pw) 60).
  intros [] [] [] [] [] [] []; cbn; lia.
Qed.

Lemma score_range pw : 0 <= score (analyze_password P pw) <= 7.
Proof.
  destruct (decide (pw = [])) as [-> | Hne]; [cbn; lia|].
  destruct (decide (lower P pw ∈ COMMONS)) as [Hc | Hnc].
  - rewrite (analyze_common P pw Hc). cbn. lia.
  - rewrite (analyze_score P pw Hne Hnc). apply count_true_criteria_range.
Qed.

Lemma space_not_alnum : isalnum P space = false.
Proof. reflexivity. Qed.

Lemma space_has_symbol pw : space ∈ pw -> has_symbol P pw = true.
Proof.
  intros H. unfold has_symbol. apply existsb_exists. exists space.
  split; [apply list_elem_of_In, H | reflexivity].
Qed.

Lemma pool_size_in_pools pw : pool_size P pw = 0 \/ pool_size P pw ∈ pools.
Proof.
  unfold pool_size, pools.
  destruct (has_lower P pw), (has_upper P pw), (has_digit P pw),
    (has_symbol P pw); cbn;
    first [left; reflexivity
          | right; apply (bool_decide_eq_true_1 _); vm_compute; reflexivity].
Qed.

(** X1: whatever the string, the analyzer returns between one and five
    suggestions, and never both the hint to include symbols and the hint
    to avoid spaces: a space already counts as a symbol. *)
Theorem suggestions_at_most_five pw :
  let l := suggestions (analyze_password P pw) in
  (1 <= List.length l <= 5)%nat /\
  ~ ("Include symbols (e.g. ! @ # $ %)"%string ∈ l /\
     "Avoid spaces in passwords (or use predictable separators carefully)"%string ∈ l).
Proof.
  intros l. subst l.
  destruct (decide (pw = [])) as [-> | Hne].
  { split; [cbn; lia|]. cbn. rewrite !elem_of_cons, !elem_of_nil.
    intros [[H|[]] _]. discriminate H. }
  destruct (decide (lower P pw ∈ COMMONS)) as [Hc | Hnc].
  { rewrite (analyze_common P pw Hc). split; [cbn; lia|]. cbn.
    rewrite !elem_of_cons, !elem_of_nil.
    intros [[H|[H|[H|[]]]] _]; discriminate H. }
  rewrite (analyze_suggestions P pw Hne Hnc).
  pose proof (space_has_symbol pw) as Hsp.
  unfold suggestions_spec, checks.
  destruct (bool_decide (space ∈ pw)) eqn:Eb.
  - apply bool_decide_eq_true_1 in Eb. rewrite (Hsp Eb).
    generalize (len pw <? 12), (has_upper P pw), (has_lower P pw), (has_digit P pw).
    intros [] [] [] []; eval_fired; (split; [cbn; lia|]);
      apply (bool_decide_eq_false_1 (_ /\ _)); vm_compute; reflexivity.
  - generalize (len pw <? 12), (has_upper P pw), (has_lower P pw),
      (has_digit P pw), (has_symbol P pw).
    intros [] [] [] [] []; eval_fired; (split; [cbn; lia|]);
      apply (bool_decide_eq_false_1 (_ /\ _)); vm_compute; reflexivity.
Qed.

(** X2: the recommendation "Looks good" is only ever given together with
    a score of 6 or 7, that is a rating of Strong or Very Strong. *)
Theorem looks_good_is_strong pw :
  suggestions (analyze_password P pw) =
    ["Looks good — consider using a passphrase for extra entropy"%string] ->
  6 <= score (analyze_password P pw) /\
  (rating (analyze_password P pw) = "Strong"%string \/
   rating (analyze_password P pw) = "Very Strong"%string).
Proof.
  destruct (decide (pw = [])) as [-> | Hne]; [discriminate|].
  destruct (decide (lower P pw ∈ COMMONS)) as [Hc | Hnc].
  { rewrite (analyze_common P pw Hc). discriminate. }
  rewrite (analyze_rating P pw Hne Hnc), (analyze_score P pw Hne Hnc),
    (analyze_suggestions P pw Hne Hnc).
  unfold suggestions_spec, checks, criteria, count_true. cbn [foldr].
  destruct (Z.ltb_spec (len pw) 12) as [Hl | Hl].
  { generalize (has_upper P pw), (has_lower P pw), (has_digit P pw),
      (has_symbol P pw), (bool_decide (space ∈ pw)).
    intros [] [] [] [] []; eval_fired; discriminate. }
  destruct (Z.leb_spec 8 (len pw)); [|lia].
  destruct (Z.leb_spec 12 (len pw)); [|lia].
  generalize (F64.gtb_int (calc_entropy P pw) 60).
  generalize (has_upper P pw), (has_lower P pw), (has_digit P pw),
    (has_symbol P pw), (bool_decide (space ∈ pw)).
  intros [] [] [] [] [] []; eval_fired; try discriminate; intros _; cbn;
    (split; [lia | auto]).
Qed.

Lemma short_entropy_le pw :
  (forall p, p ∈ pools -> (math_log2 P p <= 7)%Q) ->
  len pw < 8 -> (calc_entropy P pw <= 49)%Q.
Proof.
  intros Hlog Hl. rewrite calc_entropy_pool.
  destruct (pool_size_in_pools pw) as [-> | Hin]; [cbn; discriminate|].
  destruct ((pool_size P pw =? 0) || (len pw =? 0)); [discriminate|].
  assert (E49 : F64.round2 (F64.mul 7 7) = 49%Q) by reflexivity.
  rewrite <- E49. apply F64Facts.round2_mono, F64Facts.round_mono.
  assert (H7 : F64.of_int 7 = 7%Q) by reflexivity.
  pose proof (F64Facts.of_int_mono (len pw) 7 ltac:(lia)) as Hx.
  rewrite H7 in Hx.
  pose proof (F64Facts.of_int_nonneg (len pw) ltac:(unfold len; lia)) as Hx0.
  pose proof (Hlog _ Hin) as HL.
  destruct (Qlt_le_dec (math_log2 P (pool_size P pw)) 0); nra.
Qed.

(** X3: a password of fewer than 8 characters is never rated Strong or
    Very Strong: its score is at most 4 (no length point, and at most
    [7 * 7 = 49] bits of entropy), provided the runtime's [log2] is at
    most 7 on the pool sizes. *)
Theorem short_never_strong pw :
  (forall p, p ∈ pools -> (math_log2 P p <= 7)%Q) ->
  len pw < 8 ->
  score (analyze_password P pw) <= 4 /\
  rating (analyze_password P pw) <> "Strong"%string /\
  rating (analyze_password P pw) <> "Very Strong"%string.
Proof.
  intros Hlog Hl.
  destruct (decide (pw = [])) as [-> | Hne];
    [cbn; repeat split; [lia | discriminate..]|].
  destruct (decide (lower P pw ∈ COMMONS)) as [Hc | Hnc].
  { rewrite (analyze_common P pw Hc). cbn. repeat split; [lia | discriminate..]. }
  rewrite (analyze_rating P pw Hne Hnc), (analyze_score P pw Hne Hnc).
  assert (Hs : count_true (criteria P pw) <= 4).
  { unfold criteria, count_true. cbn [foldr].
    destruct (Z.leb_spec 8 (len pw)); [lia|].
    destruct (Z.leb_spec 12 (len pw)); [lia|].
    destruct (F64.gtb_int (calc_entropy P pw) 60) eqn:Eg.
    - apply F64Facts.gtb_int_spec in Eg.
      pose proof (short_entropy_le pw Hlog Hl) as He.
      change (inject_Z 60) with 60%Q in Eg. exfalso. lra.
    - generalize (has_lower P pw), (has_upper P pw), (has_digit P pw),
        (has_symbol P pw). intros [] [] [] []; cbn; lia. }
  pose proof (count_true_criteria_range pw) as Hr.
  split; [exact Hs|]. unfold rating_of.
  repeat case_decide; first [lia | split; discriminate].
Qed.

End AnalyzerMore.

(** On pure ASCII input the Unicode tables are never consulted. *)
Section AsciiInput.
Context (P P' : platform).

Lemma existsb_ascii_ext (f g : char -> bool) (pw : str) :
  (forall c, is_ascii c = true -> f c = g c) ->
  Forall (fun c => is_ascii c = true) pw -> existsb f pw = existsb g pw.
Proof.
  intros Hfg Hpw. induction Hpw as [|c pw Hc _ IH]; [reflexivity|].
  cbn. rewrite (Hfg c Hc), IH. reflexivity.
Qed.

Lemma classes_ascii pw :
  Forall (fun c => is_ascii c = true) pw ->
  has_lower P pw = has_lower P' pw /\ has_upper P pw = has_upper P' pw /\
  has_digit P pw = has_digit P' pw /\ has_symbol P pw = has_symbol P' pw.
Proof.
  intros Hpw. unfold has_lower, has_upper, has_digit, has_symbol.
  repeat split; apply existsb_ascii_ext; try exact Hpw;
    intros c Hc; unfold islower, isupper, isdigit, isalnum; rewrite Hc; reflexivity.
Qed.

Lemma lower_ascii pw :
  Forall (fun c => is_ascii c = true) pw -> lower P pw = ascii_lower <$> pw.
Proof.
  intros Hpw. unfold lower.
  rewrite (proj2 (forallb_forall is_ascii pw)); [reflexivity|].
  intros c Hc. apply list_elem_of_In in Hc.
  exact (proj1 (Forall_forall _ _) Hpw c Hc).
Qed.

End AsciiInput.

Section AnalyzerAscii.
Context (P P' : platform).

(** X4: on a string of ASCII characters the whole analysis depends on
    the runtime only through [math.log2]: two runtimes that agree on it
    return the same score, entropy, rating and suggestions. *)
Theorem analyze_ascii_independent pw :
  Forall (fun c => is_ascii c = true) pw ->
  (forall p, math_log2 P p = math_log2 P' p) ->
  analyze_password P pw = analyze_password P' pw.
Proof.
  intros Hpw Hlog.
  destruct (classes_ascii P P' pw Hpw) as (El & Eu & Ed & Es).
  assert (Elow : lower P pw = lower P' pw)
    by (rewrite (lower_ascii P pw Hpw), (lower_ascii P' pw Hpw); reflexivity).
  assert (Ee : calc_entropy P pw = calc_entropy P' pw).
  { rewrite !calc_entropy_pool. unfold pool_size.
    rewrite El, Eu, Ed, Es, Hlog. reflexivity. }
  destruct (decide (pw = [])) as [-> | Hne]; [reflexivity|].
  destruct (decide (lower P pw ∈ COMMONS)) as [Hc | Hnc].
  { rewrite (analyze_common P pw Hc).
    rewrite Elow in Hc. rewrite (analyze_common P' pw Hc), Ee. reflexivity. }
  assert (Hnc' : lower P' pw ∉ COMMONS) by (rewrite <- Elow; exact Hnc).
  assert (Esc : score (analyze_password P pw) = score (analyze_password P' pw)).
  { rewrite (analyze_score P pw Hne Hnc), (analyze_score P' pw Hne Hnc').
    unfold criteria. rewrite El, Eu, Ed, Es, Ee. reflexivity. }
  apply analysis_eq.
  - exact Esc.
  - rewrite !analyze_entropy. exact Ee.
  - rewrite (analyze_rating P pw Hne Hnc), (analyze_rating P' pw Hne Hnc'), Esc.
    reflexivity.
  - rewrite (analyze_suggestions P pw Hne Hnc), (analyze_suggestions P' pw Hne Hnc').
    unfold suggestions_spec, checks. rewrite El, Eu, Ed, Es. reflexivity.
Qed.

End AnalyzerAscii.

Section EntropyMore.
Context (P : platform).

Lemma calc_entropy_ge_0 pw :
  (forall p, p ∈ pools -> (0 <= math_log2 P p)%Q) ->
  (0 <= calc_entropy P pw)%Q.
Proof.
  intros Hlog. rewrite calc_entropy_pool.
  destruct (pool_size_in_pools P pw) as [-> | Hin]; [cbn; discriminate|].
  destruct ((pool_size P pw =? 0) || (len pw =? 0)); [discriminate|].
  apply F64Facts.round2_nonneg, F64Facts.mul_nonneg; [|apply Hlog, Hin].
  apply F64Facts.of_int_nonneg. unfold len. lia.
Qed.

(** X5: the estimate is never negative, as long as the runtime's [log2]
    is not negative on the pool sizes. *)
Theorem calc_entropy_nonneg pw :
  (forall p, p ∈ pools -> (0 <= math_log2 P p)%Q) ->
  (0 <= calc_entropy P pw)%Q.
Proof. exact (calc_entropy_ge_0 pw). Qed.

Lemma has_app_mono (f : char -> bool) (s t : str) :
  existsb f s = true -> existsb f (s ++ t) = true.
Proof. intros H. rewrite existsb_app, H. reflexivity. Qed.

Lemma pool_size_app_le s t : pool_size P s <= pool_size P (s ++ t).
Proof.
  unfold pool_size, has_lower, has_upper, has_digit, has_symbol.
  pose proof (has_app_mono (islower P) s t).
  pose proof (has_app_mono (isupper P) s t).
  pose proof (has_app_mono (isdigit P) s t).
  pose proof (has_app_mono (fun c => negb (isalnum P c)) s t).
  destruct (existsb (islower P) s), (existsb (isupper P) s),
    (existsb (isdigit P) s), (existsb (fun c => negb (isalnum P c)) s);
    rewrite ?H, ?H0, ?H1, ?H2 by reflexivity;
    destruct (existsb (islower P) (s ++ t)), (existsb (isupper P) (s ++ t)),
      (existsb (isdigit P) (s ++ t)),
      (existsb (fun c => negb (isalnum P c)) (s ++ t)); lia.
Qed.

(** X6: typing more characters never lowers the estimate: for all
    strings [s] and [t] the entropy of [s ++ t] is at least that of [s],
    provided the runtime's [log2] is non-negative and non-decreasing on
    the pool sizes. *)
Theorem entropy_append_monotone s t :
  (forall p, p ∈ pools -> (0 <= math_log2 P p)%Q) ->
  (forall p q, p ∈ pools -> q ∈ pools -> p <= q ->
               (math_log2 P p <= math_log2 P q)%Q) ->
  (calc_entropy P s <= calc_entropy P (s ++ t))%Q.
Proof.
  intros Hnn Hmono.
  pose proof (calc_entropy_ge_0 (s ++ t) Hnn) as H0.
  pose proof (pool_size_app_le s t) as Hp.
  rewrite !calc_entropy_pool in *.
  destruct (pool_size_in_pools P s) as [-> | Hin]; [exact H0|].
  assert (Hs : 10 <= pool_size P s).
  { revert Hin. unfold pools. rewrite !elem_of_cons, elem_of_nil. lia. }
  destruct (pool_size_in_pools P (s ++ t)) as [Hz | Hin']; [lia|].
  destruct (Z.eqb_spec (pool_size P s) 0); [lia|].
  destruct (Z.eqb_spec (pool_size P (s ++ t)) 0); [lia|]. cbn [orb] in *.
  assert (Hl : len s <= len (s ++ t)) by (unfold len; rewrite length_app; lia).
  destruct (Z.eqb_spec (len s) 0); [exact H0|].
  destruct (Z.eqb_spec (len (s ++ t)) 0); [unfold len in *; lia|].
  apply F64Facts.round2_mono, F64Facts.round_mono.
  pose proof (F64Facts.of_int_mono _ _ Hl).
  pose proof (F64Facts.of_int_nonneg (len s) ltac:(unfold len; lia)).
  pose proof (Hnn _ Hin). pose proof (Hmono _ _ Hin Hin' Hp).
  nra.
Qed.

End EntropyMore.

(** ** Generator *)

Lemma allchars_plain :
  Forall (fun c => is_ascii c = true /\ c <> space /\ ascii_lower c <> space) allchars.
Proof. repeat constructor; discriminate. Qed.

Lemma generated_alphabet (s : str) c1 c2 c3 c4 ext :
  c1 ∈ lowers -> c2 ∈ uppers -> c3 ∈ digits -> c4 ∈ symbols ->
  Forall (fun c => c ∈ allchars) ext ->
  s ≡ₚ [c1; c2; c3; c4] ++ ext -> Forall (fun c => c ∈ allchars) s.
Proof.
  intros H1 H2 H3 H4 Hext Hs. rewrite Hs. unfold allchars.
  repeat (constructor; [rewrite !elem_of_app; auto 6|]).
  eapply Forall_impl; [exact Hext|]. intros c Hc. exact Hc.
Qed.

(** X7: whatever length is asked for and whatever the random choices,
    the generator returns [max length 4] characters, all taken from its
    88-character alphabet: plain ASCII, never a space. *)
Theorem generate_alphabet (length : Z) (t : rng) :
  exists s t', generate_suggestion length t = (Ok s, t') /\
    len s = Z.max length 4 /\
    Forall (fun c => c ∈ allchars) s /\
    Forall (fun c => is_ascii c = true) s /\ space ∉ s.
Proof.
  destruct (generate_returns length t)
    as (s & t' & E & c1 & c2 & c3 & c4 & ext & H1 & H2 & H3 & H4 & Hext & Hs & Hlen).
  pose proof (generated_alphabet s c1 c2 c3 c4 ext H1 H2 H3 H4 Hext Hs) as Hall.
  exists s, t'. split; [exact E|]. split; [exact Hlen|]. split; [exact Hall|].
  pose proof allchars_plain as Hp. rewrite Forall_forall in Hp, Hall.
  split.
  - apply Forall_forall. intros c Hc. apply (Hp c (Hall c Hc)).
  - intros Hsp. destruct (Hp space (Hall space Hsp)) as (_ & Hne & _).
    apply Hne. reflexivity.
Qed.

Lemma commons_short (x : str) : x ∈ COMMONS -> (List.length x <= 9)%nat.
Proof.
  unfold COMMONS. rewrite !elem_of_union, !elem_of_singleton.
  intros H. repeat (destruct H as [H | H]); subst x; cbn; lia.
Qed.

Section GeneratedRated.
Context (P : platform).

(** The analysis of a string of at least 12 characters of the
    generator's alphabet holding one character of each class. *)
Lemma analyze_generated (s : str) :
  (6 <= math_log2 P 94)%Q ->
  12 <= len s -> Forall (fun c => c ∈ allchars) s -> one_of_each s ->
  analyze_password P s =
  {| score := 7; entropy := calc_entropy P s; rating := "Very Strong";
     suggestions :=
       ["Looks good — consider using a passphrase for extra entropy"%string] |}.
Proof.
  intros Hlog Hlen Hall Hone.
  destruct (one_of_each_classes P s Hone) as (El & Eu & Ed & Es).
  pose proof allchars_plain as Hp. rewrite Forall_forall in Hp, Hall.
  assert (Hascii : Forall (fun c => is_ascii c = true) s).
  { apply Forall_forall. intros c Hc. apply (Hp c (Hall c Hc)). }
  assert (Hsp : space ∉ s).
  { intros Hc. destruct (Hp space (Hall space Hc)) as (_ & Hne & _).
    apply Hne. reflexivity. }
  assert (Hne : s <> []) by (intros ->; unfold len in Hlen; simpl in Hlen; lia).
  assert (Hnc : lower P s ∉ COMMONS).
  { intros Hc. apply commons_short in Hc.
    rewrite (lower_ascii P s Hascii), length_fmap in Hc. unfold len in Hlen. lia. }
  assert (Hpool : pool_size P s = 94).
  { unfold pool_size. rewrite El, Eu, Ed, Es. reflexivity. }
  assert (He : F64.gtb_int (calc_entropy P s) 60 = true).
  { apply F64Facts.gtb_int_spec. rewrite calc_entropy_pool, Hpool.
    destruct (Z.eqb_spec (len s) 0); [lia|]. cbn [Z.eqb orb].
    assert (E72 : F64.round2 (F64.round 72) = 72%Q) by reflexivity.
    assert (E12 : F64.of_int 12 = 12%Q) by reflexivity.
    pose proof (F64Facts.of_int_mono 12 (len s) Hlen) as Hx. rewrite E12 in Hx.
    assert (Hm : (F64.round2 (F64.round 72) <=
                  F64.round2 (F64.mul (F64.of_int (len s)) (math_log2 P 94)))%Q).
    { apply F64Facts.round2_mono, F64Facts.round_mono. nra. }
    rewrite E72 in Hm. change (inject_Z 60) with 60%Q. lra. }
  apply analysis_eq; cbn [score entropy rating suggestions].
  - rewrite (analyze_score P s Hne Hnc). unfold criteria.
    rewrite El, Eu, Ed, Es, He.
    destruct (Z.leb_spec 8 (len s)); [|lia].
    destruct (Z.leb_spec 12 (len s)); [|lia]. reflexivity.
  - apply analyze_entropy.
  - rewrite (analyze_rating P s Hne Hnc), (analyze_score P s Hne Hnc).
    unfold criteria. rewrite El, Eu, Ed, Es, He.
    destruct (Z.leb_spec 8 (len s)); [|lia].
    destruct (Z.leb_spec 12 (len s)); [|lia]. reflexivity.
  - rewrite (analyze_suggestions P s Hne Hnc). unfold suggestions_spec, checks.
    rewrite El, Eu, Ed, Es, (bool_decide_eq_false_2 _ Hsp).
    destruct (Z.ltb_spec (len s) 12); [lia|]. reflexivity.
Qed.

(** X8: a password generated with a length of 12 or more always gets
    the analyzer's top marks: score 7, rating Very Strong and the single
    recommendation "Looks good", provided the runtime's [log2(94)] is
    at least 6. *)
Theorem generated_is_very_strong (length : Z) (t : rng) :
  12 <= length -> (6 <= math_log2 P 94)%Q ->
  exists s t', generate_suggestion length t = (Ok s, t') /\
    analyze_password P s =
    {| score := 7; entropy := calc_entropy P s; rating := "Very Strong";
       suggestions :=
         ["Looks good — consider using a passphrase for extra entropy"%string] |}.
Proof.
  intros Hl Hlog.
  destruct (generate_returns length t)
    as (s & t' & E & c1 & c2 & c3 & c4 & ext & H1 & H2 & H3 & H4 & Hext & Hs & Hlen).
  exists s, t'. split; [exact E|].
  apply analyze_generated; [exact Hlog | lia | |].
  - exact (generated_alphabet s c1 c2 c3 c4 ext H1 H2 H3 H4 Hext Hs).
  - exact (one_of_each_perm s c1 c2 c3 c4 ext H1 H2 H3 H4 Hs).
Qed.

End GeneratedRated.

(** ** Key handling *)

Section SessionFacts.
Variables KEY_ENTER KEY_BACKSPACE : Z.
Variable PYPERCLIP : bool.
Variable pyperclip_copy : str -> bool.

Local Abbreviation step := (process_key KEY_ENTER KEY_BACKSPACE PYPERCLIP pyperclip_copy).
Local Abbreviation loop := (run KEY_ENTER KEY_BACKSPACE PYPERCLIP pyperclip_copy).











Lemma enter_test (key : Z) :
  (key =? KEY_ENTER) || (key =? 10) || (key =? 13) = true <-> is_enter KEY_ENTER key.
Proof. unfold is_enter. rewrite !orb_true_iff, !Z.eqb_eq. tauto. Qed.

Lemma backspace_test (key : Z) :
  (key =? KEY_BACKSPACE) || (key =? 127) || (key =? 8) = true
  <-> is_backspace KEY_BACKSPACE key.
Proof. unfold is_backspace. rewrite !orb_true_iff, !Z.eqb_eq. tauto. Qed.

Lemma suggest_test (key : Z) :
  (key =? ord 115%N) || (key =? ord 83%N) = true <-> is_suggest key.
Proof. unfold is_suggest, ord. rewrite !orb_true_iff, !Z.eqb_eq. tauto. Qed.

Lemma printable_test (key : Z) :
  (32 <=? key) && (key <=? 126) = true <-> is_printable key.
Proof. unfold is_printable. rewrite andb_true_iff, !Z.leb_le. tauto. Qed.

(** Split on the tests of the dispatch, in its order, turning each into
    the fact it decides. *)
Ltac dispatch key :=
  unfold process_key;
  destruct (Z.eqb_spec key (-1)) as [Hnone | Hnone];
  [|destruct ((key =? KEY_ENTER) || (key =? 10) || (key =? 13)) eqn:Henter;
    [apply enter_test in Henter
    |apply not_true_iff_false in Henter; rewrite enter_test in Henter;
     destruct ((key =? KEY_BACKSPACE) || (key =? 127) || (key =? 8)) eqn:Hback;
     [apply backspace_test in Hback
     |apply not_true_iff_false in Hback; rewrite backspace_test in Hback;
      destruct ((key =? ord 115%N) || (key =? ord 83%N)) eqn:Hsug;
      [apply suggest_test in Hsug
      |apply not_true_iff_false in Hsug; rewrite suggest_test in Hsug;
       destruct ((32 <=? key) && (key <=? 126)) eqn:Hprint;
       [apply printable_test in Hprint
       |apply not_true_iff_false in Hprint; rewrite printable_test in Hprint]]]]].


(** X12: the suggestion command stores a fresh 16-character password
    holding every class and leaves the typed password alone; a clipboard
    that is missing or fails changes nothing of that, only the clipboard
    itself keeps its old content. *)
Theorem suggest_key (key : Z) (st : session) (t : rng) :
  key <> -1 -> ~ is_enter KEY_ENTER key -> ~ is_backspace KEY_BACKSPACE key -> is_suggest key ->
  exists s t',
    generate_suggestion 16 t = (Ok s, t') /\
    len s = 16 /\ one_of_each s /\
    step key st t =
      (Ok {| input_buffer := input_buffer st;
             suggestion_pwd := s;
             clipboard := if PYPERCLIP && pyperclip_copy s
                          then Some s else clipboard st |}, t').
Proof.
  intros K1 K2 K3 K4.
  destruct (generate_returns 16 t)
    as (s & t' & E & c1 & c2 & c3 & c4 & ext & H1 & H2 & H3 & H4 & _ & Hs & Hlen).
  exists s, t'. split; [exact E|]. split; [lia|].
  split; [eapply one_of_each_perm; eassumption|].
  dispatch key; try contradiction. unfold bind. rewrite E. unfold ret.
  destruct PYPERCLIP, (pyperclip_copy s); reflexivity.
Qed.

(** X13: only the suggestion keys change the suggested password or draw
    random numbers, and only backspace and printable keys change the
    typed password; Enter, the absence of a key and every other key leave
    the session as it is. *)
Theorem keys_change_little (key : Z) (st : session) (t : rng) :
  exists st' t', step key st t = (Ok st', t') /\
    (is_suggest key \/ (suggestion_pwd st' = suggestion_pwd st /\
                        clipboard st' = clipboard st /\ t' = t)) /\
    (is_backspace KEY_BACKSPACE key \/ is_printable key \/ input_buffer st' = input_buffer st) /\
    (key = -1 \/ is_enter KEY_ENTER key \/
     ~ (is_backspace KEY_BACKSPACE key \/ is_suggest key \/ is_printable key) -> st' = st).
Proof.
  destruct (generate_returns 16 t) as (s & t' & E & _).
  dispatch key.
  - exists st, t. repeat split; auto.
  - exists st, t. repeat split; auto.
  - destruct (input_buffer st) eqn:Eb; eexists _, _; (split; [reflexivity|]);
      cbn [suggestion_pwd clipboard]; repeat split; auto; tauto.
  - unfold bind. rewrite E. eexists _, _. split; [reflexivity|].
    repeat split; auto; tauto.
  - eexists _, _. split; [reflexivity|].
    cbn [suggestion_pwd clipboard]. repeat split; auto; tauto.
  - exists st, t. repeat split; auto.
Qed.

(** X14: an interrupt ends the loop: the keys after it are never
    processed. *)
Theorem interrupt_stops (evs1 evs2 : list event) (st : session) (t : rng) :
  loop (evs1 ++ Interrupt :: evs2) st t = loop evs1 st t.
Proof.
  revert st t. induction evs1 as [|[key|] evs1 IH]; intros st t.
  - reflexivity.
  - cbn [app run]. unfold bind. destruct (step key st t) as [[st'|e] t1].
    + apply IH.
    + reflexivity.
  - reflexivity.
Qed.

End SessionFacts.

(** ** Strength bar *)

Lemma filled_grid :
  forallb (fun sc => forallb (fun w => filled sc w =? Z.quot (sc * w) 7)
                             (seqZ (-20) 61)) (seqZ 0 8) = true.
Proof. vm_compute. reflexivity. Qed.

(** On the scores and widths that can occur, the float computation
    [int((score / 7.0) * bar_w)] is the exact quotient. *)
Lemma filled_exact (sc w : Z) :
  0 <= sc <= 7 -> -20 <= w <= 40 -> filled sc w = Z.quot (sc * w) 7.
Proof.
  intros Hs Hw. pose proof filled_grid as G.
  rewrite forallb_forall in G.
  assert (Hin : In sc (seqZ 0 8)) by (apply list_elem_of_In, elem_of_seqZ; lia).
  specialize (G sc Hin). rewrite forallb_forall in G.
  assert (Hin' : In w (seqZ (-20) 61)) by (apply list_elem_of_In, elem_of_seqZ; lia).
  specialize (G w Hin'). apply Z.eqb_eq in G. exact G.
Qed.

Lemma str_repeat_single (c : char) (n : Z) :
  str_repeat [c] n = replicate (Z.to_nat n) c.
Proof.
  unfold str_repeat. induction (Z.to_nat n) as [|k IH]; [reflexivity|].
  cbn. rewrite <- IH. reflexivity.
Qed.

Lemma len_str_repeat_single (c : char) (n : Z) : len (str_repeat [c] n) = Z.max n 0.
Proof. rewrite str_repeat_single. unfold len. rewrite length_replicate. lia. Qed.

(** X15: for every password and every window width the strength bar is
    [max bar_w 0 + 2] characters long and holds exactly
    [score * bar_w / 7] filled cells: the float arithmetic loses nothing.
    When the bar has room it is completely filled exactly at score 7. *)
Theorem strength_bar_exact (P : platform) (pw : str) (max_x : Z) :
  0 <= max_x ->
  let sc := score (analyze_password P pw) in
  let w := bar_w max_x in
  filled sc w = Z.quot (sc * w) 7 /\
  len (bar sc w) = Z.max w 0 + 2 /\
  (0 < w ->
   bar sc w = py "[" ++ replicate (Z.to_nat (sc * w / 7)) 35%N ++
              replicate (Z.to_nat (w - sc * w / 7)) 45%N ++ py "]" /\
   0 <= sc * w / 7 <= w /\ (sc * w / 7 = w <-> sc = 7)).
Proof.
  intros Hx sc w. pose proof (score_range P pw) as Hs. fold sc in Hs.
  assert (Hw : -20 <= w <= 40) by (unfold w, bar_w; lia).
  pose proof (filled_exact sc w Hs Hw) as Hf.
  split; [exact Hf|]. split.
  - unfold bar. unfold len. rewrite !length_app.
    change (py "#") with [35%N]. change (py "-") with [45%N].
    cbn [List.length py fmap list_fmap list_ascii_of_string].
    rewrite Hf.
    assert (Hq : (0 <= w -> 0 <= Z.quot (sc * w) 7 <= w) /\
                 (w < 0 -> w <= Z.quot (sc * w) 7 <= 0)).
    { split; intros; Z.to_euclidean_division_equations; nia. }
    set (q := Z.quot (sc * w) 7) in *. clearbody q. clear Hf.
    set (n1 := List.length (str_repeat [35%N] q)).
    set (n2 := List.length (str_repeat [45%N] (w - q))).
    assert (L1 : Z.of_nat n1 = Z.max q 0)
      by exact (len_str_repeat_single 35%N q).
    assert (L2 : Z.of_nat n2 = Z.max (w - q) 0)
      by exact (len_str_repeat_single 45%N (w - q)).
    clearbody n1 n2 w sc. lia.
  - intros Hpos. rewrite <- (Z.quot_div_nonneg (sc * w) 7) by nia.
    split; [|split].
    + unfold bar. rewrite Hf.
      change (py "#") with [35%N]. change (py "-") with [45%N].
      rewrite !str_repeat_single. reflexivity.
    + Z.to_euclidean_division_equations; nia.
    + Z.to_euclidean_division_equations; nia.
Qed.

(** ** Input box *)

Lemma elem_of_range (a b i : Z) : i ∈ range a b <-> a <= i < b.
Proof. unfold range. rewrite elem_of_seqZ. lia. Qed.

Lemma len_spaces (n : Z) : len (str_repeat (py " ") n) = Z.max n 0.
Proof. apply (len_str_repeat_single 32%N). Qed.

(** Every call of [draw_input_box] stays inside the rectangle of the
    box, for a box of at least one row and one column. *)
Lemma draw_input_box_in_rectangle (cy cx w h : Z) (sh : bool) (max_y max_x : Z) :
  1 <= w -> 1 <= h ->
  0 <= cy - h / 2 -> cy - h / 2 + h <= max_y ->
  0 <= cx - w / 2 -> cx - w / 2 + w <= max_x ->
  Forall (inside max_y max_x) (draw_input_box cy cx w h sh).
Proof.
  intros Hw Hh Ht Hb Hl Hr. unfold draw_input_box.
  set (top := cy - h / 2) in *. set (left := cx - w / 2) in *.
  clearbody top left.
  rewrite !Forall_app. repeat split.
  - apply Forall_bind, Forall_forall. intros dx Hdx. apply elem_of_range in Hdx.
    constructor; [|constructor; [|constructor]]; cbn [inside]; lia.
  - apply Forall_bind, Forall_forall. intros dy Hdy. apply elem_of_range in Hdy.
    repeat constructor; cbn [inside]; lia.
  - repeat (constructor; [cbn [inside]; lia|]). constructor.
  - apply Forall_bind, Forall_forall. intros i Hi. apply elem_of_range in Hi.
    unfold compose. cbv beta zeta.
    match goal with |- context [if ?b then _ else _] => destruct b end;
      (constructor; [|constructor]); cbn [inside]; rewrite len_spaces; lia.
Qed.

(** X16: in [main] the input box lies entirely inside the window exactly
    when the terminal has at least 60 columns and 7 rows; on a smaller
    terminal [draw_input_box], which has no handler, issues a write
    outside the window. *)
Theorem box_fits_window (max_y max_x : Z) (shimmer : bool) :
  Forall (inside max_y max_x)
         (draw_input_box (max_y / 2) (max_x / 2) (box_w max_x) box_h shimmer)
  <-> 60 <= max_x /\ 7 <= max_y.
Proof.
  split.
  - unfold draw_input_box. rewrite !Forall_app. intros (_ & _ & Hc & _).
    rewrite !Forall_cons in Hc. cbn [inside] in Hc.
    destruct Hc as (H1 & _ & _ & H2 & _).
    unfold box_w, box_h in *. Z.to_euclidean_division_equations. lia.
  - intros [Hx Hy]. apply draw_input_box_in_rectangle;
      unfold box_w, box_h; Z.to_euclidean_division_equations; lia.
Qed.

Lemma foldl_last_write (ds : list draw) (y x : Z) (acc : option cell) :
  foldl (fun acc d => match writes d y x with Some c => Some c | None => acc end)
        acc ds =
  match cell_at ds y x with Some c => Some c | None => acc end.
Proof.
  unfold cell_at. revert acc. induction ds as [|d ds IH]; intros acc; [reflexivity|].
  cbn [foldl]. rewrite IH, (IH (match writes d y x with
                                | Some c => Some c | None => None end)).
  destruct (foldl _ None ds); [reflexivity|]. destruct (writes d y x); reflexivity.
Qed.

Lemma cell_at_app (ds1 ds2 : list draw) (y x : Z) :
  cell_at (ds1 ++ ds2) y x =
  match cell_at ds2 y x with Some c => Some c | None => cell_at ds1 y x end.
Proof. unfold cell_at at 1. rewrite foldl_app. apply foldl_last_write. Qed.

Lemma cell_at_cons (d : draw) (ds : list draw) (y x : Z) :
  cell_at (d :: ds) y x =
  match cell_at ds y x with Some c => Some c | None => writes d y x end.
Proof.
  change (d :: ds) with ([d] ++ ds). rewrite cell_at_app.
  unfold cell_at at 2. cbn [foldl]. destruct (writes d y x); reflexivity.
Qed.

Lemma cell_at_none (ds : list draw) (y x : Z) :
  Forall (fun d => writes d y x = None) ds -> cell_at ds y x = None.
Proof.
  induction 1 as [|d ds Hd _ IH]; [reflexivity|].
  rewrite cell_at_cons, IH. exact Hd.
Qed.

Lemma cell_at_uniform (ds : list draw) (y x : Z) (c : cell) :
  Forall (fun d => writes d y x = None \/ writes d y x = Some c) ds ->
  Exists (fun d => writes d y x = Some c) ds -> cell_at ds y x = Some c.
Proof.
  intros HF. assert (Hw : cell_at ds y x = None \/ cell_at ds y x = Some c).
  { induction HF as [|d ds Hd _ IH]; [left; reflexivity|].
    rewrite cell_at_cons. destruct IH as [-> | ->]; [exact Hd | right; reflexivity]. }
  induction 1 as [d ds Hd | d ds _ IH].
  - rewrite cell_at_cons. inversion HF as [|? ? _ HF']; subst.
    assert (Hds : cell_at ds y x = None \/ cell_at ds y x = Some c).
    { clear -HF'. induction HF' as [|d ds Hd _ IH]; [left; reflexivity|].
      rewrite cell_at_cons. destruct IH as [-> | ->]; [exact Hd | right; reflexivity]. }
    destruct Hds as [-> | ->]; [exact Hd | reflexivity].
  - rewrite cell_at_cons. inversion HF as [|? ? Hd HF']; subst.
    assert (Hds : cell_at ds y x = Some c).
    { apply IH; [exact HF'|].
      clear -HF'. induction HF' as [|d' ds Hd' _ IH']; [left; reflexivity|].
      rewrite cell_at_cons. destruct IH' as [-> | ->]; [exact Hd' | right; reflexivity]. }
    rewrite Hds. reflexivity.
Qed.

Ltac decide_writes :=
  cbn [writes];
  repeat match goal with
         | |- context [Z.eqb ?a ?b] => destruct (Z.eqb_spec a b)
         | |- context [Z.leb ?a ?b] => destruct (Z.leb_spec a b)
         end;
  cbn [andb orb]; try (exfalso; lia); auto.

Section BoxSegments.
Variables (top left w h : Z) (sh : bool) (y x : Z).

Let hlines : list draw :=
  range 0 w ≫= fun dx =>
    [Addch top (left + dx) ACS_HLINE {| color_pair := 2; A_BOLD := false |};
     Addch (top + h - 1) (left + dx) ACS_HLINE {| color_pair := 2; A_BOLD := false |}].

Let vlines : list draw :=
  range 1 (h - 1) ≫= fun dy =>
    [Addch (top + dy) left ACS_VLINE {| color_pair := 2; A_BOLD := false |};
     Addch (top + dy) (left + w - 1) ACS_VLINE {| color_pair := 2; A_BOLD := false |}].

Let rows : list draw :=
  range 1 (h - 1) ≫= fun i =>
    let row_text := str_repeat (py " ") (w - 2) in
    if sh && (i mod 3 =? 0)
    then [Addstr (top + i) (left + 1) row_text {| color_pair := 3; A_BOLD := true |}]
    else [Addstr (top + i) (left + 1) row_text {| color_pair := 1; A_BOLD := false |}].

Lemma hlines_cell :
  cell_at hlines y x =
  if ((y =? top) || (y =? top + h - 1)) && (left <=? x) && (x <? left + w)
  then Some (Glyph ACS_HLINE) else None.
Proof.
  destruct (((y =? top) || (y =? top + h - 1)) && (left <=? x) && (x <? left + w))
    eqn:E.
  - apply andb_true_iff in E as [E Hx2]. apply andb_true_iff in E as [Hy Hx1].
    apply Z.leb_le in Hx1. apply Z.ltb_lt in Hx2. apply orb_true_iff in Hy.
    apply cell_at_uniform.
    + apply Forall_bind, Forall_forall. intros dx _. unfold compose.
      constructor; [|constructor; [|constructor]]; decide_writes.
    + apply Exists_exists. destruct Hy as [Hy | Hy]; apply Z.eqb_eq in Hy.
      * exists (Addch top (left + (x - left)) ACS_HLINE
                  {| color_pair := 2; A_BOLD := false |}).
        split; [|decide_writes].
        apply list_elem_of_bind. exists (x - left).
        split; [apply elem_of_cons; left; reflexivity | apply elem_of_range; lia].
      * exists (Addch (top + h - 1) (left + (x - left)) ACS_HLINE
                  {| color_pair := 2; A_BOLD := false |}).
        split; [|decide_writes].
        apply list_elem_of_bind. exists (x - left).
        split; [apply elem_of_cons; right; apply elem_of_cons; left; reflexivity
               | apply elem_of_range; lia].
  - apply cell_at_none, Forall_bind, Forall_forall. intros dx Hdx.
    apply elem_of_range in Hdx. unfold compose.
    constructor; [|constructor; [|constructor]]; cbn [writes];
      destruct (Z.eqb_spec y top), (Z.eqb_spec y (top + h - 1)),
        (Z.leb_spec left x), (Z.ltb_spec x (left + w));
      cbn [andb orb] in E; try discriminate E;
      decide_writes.
Qed.

Lemma vlines_cell :
  cell_at vlines y x =
  if (top + 1 <=? y) && (y <=? top + h - 2) &&
     ((x =? left) || (x =? left + w - 1))
  then Some (Glyph ACS_VLINE) else None.
Proof.
  destruct ((top + 1 <=? y) && (y <=? top + h - 2) &&
            ((x =? left) || (x =? left + w - 1))) eqn:E.
  - apply andb_true_iff in E as [E Hx]. apply andb_true_iff in E as [Hy1 Hy2].
    apply Z.leb_le in Hy1, Hy2. apply orb_true_iff in Hx.
    apply cell_at_uniform.
    + apply Forall_bind, Forall_forall. intros dy _. unfold compose.
      constructor; [|constructor; [|constructor]]; decide_writes.
    + apply Exists_exists. destruct Hx as [Hx | Hx]; apply Z.eqb_eq in Hx.
      * exists (Addch (top + (y - top)) left ACS_VLINE
                  {| color_pair := 2; A_BOLD := false |}).
        split; [|decide_writes].
        apply list_elem_of_bind. exists (y - top).
        split; [apply elem_of_cons; left; reflexivity | apply elem_of_range; lia].
      * exists (Addch (top + (y - top)) (left + w - 1) ACS_VLINE
                  {| color_pair := 2; A_BOLD := false |}).
        split; [|decide_writes].
        apply list_elem_of_bind. exists (y - top).
        split; [apply elem_of_cons; right; apply elem_of_cons; left; reflexivity
               | apply elem_of_range; lia].
  - apply cell_at_none, Forall_bind, Forall_forall. intros dy Hdy.
    apply elem_of_range in Hdy. unfold compose.
    constructor; [|constructor; [|constructor]]; cbn [writes];
      destruct (Z.leb_spec (top + 1) y), (Z.leb_spec y (top + h - 2)),
        (Z.eqb_spec x left), (Z.eqb_spec x (left + w - 1));
      cbn [andb orb] in E; try discriminate E;
      decide_writes.
Qed.

Lemma writes_spaces (a : attr) (i : Z) :
  writes (Addstr (top + i) (left + 1) (str_repeat (py " ") (w - 2)) a) y x =
  if (y =? top + i) && (left + 1 <=? x) && (x <=? left + w - 2)
  then Some (Char space) else None.
Proof.
  cbn [writes]. change (py " ") with [32%N]. rewrite str_repeat_single.
  destruct (Z.eqb_spec y (top + i)), (Z.leb_spec (left + 1) x),
    (Z.leb_spec x (left + w - 2)); cbn [andb]; try reflexivity.
  - match goal with
    | |- context [?l !! ?i] =>
        replace (l !! i) with (Some 32%N)
          by (symmetry; apply lookup_replicate_2; lia)
    end. reflexivity.
  - match goal with
    | |- context [?l !! ?i] =>
        replace (l !! i) with (@None N)
          by (symmetry; apply lookup_replicate_None; lia)
    end. reflexivity.
Qed.

Lemma rows_cell :
  cell_at rows y x =
  if (top + 1 <=? y) && (y <=? top + h - 2) &&
     (left + 1 <=? x) && (x <=? left + w - 2)
  then Some (Char space) else None.
Proof.
  destruct ((top + 1 <=? y) && (y <=? top + h - 2) &&
            (left + 1 <=? x) && (x <=? left + w - 2)) eqn:E.
  - apply andb_true_iff in E as [E Hx2]. apply andb_true_iff in E as [E Hx1].
    apply andb_true_iff in E as [Hy1 Hy2]. apply Z.leb_le in Hy1, Hy2, Hx1, Hx2.
    apply cell_at_uniform.
    + apply Forall_bind, Forall_forall. intros i _. unfold compose. cbv zeta.
      match goal with |- context [if ?b then _ else _] => destruct b end;
        (constructor; [|constructor]); rewrite writes_spaces;
        match goal with |- context [if ?b then _ else _] => destruct b end; auto.
    + apply Exists_exists.
      exists (Addstr (top + (y - top)) (left + 1) (str_repeat (py " ") (w - 2))
                (if sh && ((y - top) mod 3 =? 0)
                 then {| color_pair := 3; A_BOLD := true |}
                 else {| color_pair := 1; A_BOLD := false |})).
      split.
      * apply list_elem_of_bind. exists (y - top).
        split; [|apply elem_of_range; lia]. cbv zeta.
        destruct (sh && ((y - top) mod 3 =? 0)); apply elem_of_cons; left; reflexivity.
      * rewrite writes_spaces. decide_writes.
  - apply cell_at_none, Forall_bind, Forall_forall. intros i Hi.
    apply elem_of_range in Hi. unfold compose. cbv zeta.
    match goal with |- context [if ?b then _ else _] => destruct b end;
      (constructor; [|constructor]); rewrite writes_spaces;
      destruct (Z.leb_spec (top + 1) y), (Z.leb_spec y (top + h - 2)),
        (Z.leb_spec (left + 1) x), (Z.leb_spec x (left + w - 2));
      cbn [andb] in E; try discriminate E; decide_writes.
Qed.

Lemma box_cells (cy cx : Z) :
  2 <= w -> 2 <= h -> top = cy - h / 2 -> left = cx - w / 2 ->
  cell_at (draw_input_box cy cx w h sh) y x =
  if (top <=? y) && (y <? top + h) && (left <=? x) && (x <? left + w)
  then Some (box_cell top left w h y x) else None.
Proof.
  intros Hw Hh Et El. unfold draw_input_box. rewrite <- Et, <- El.
  change (cell_at (hlines ++ vlines ++
            [Addch top left ACS_ULCORNER {| color_pair := 2; A_BOLD := false |};
             Addch top (left + w - 1) ACS_URCORNER {| color_pair := 2; A_BOLD := false |};
             Addch (top + h - 1) left ACS_LLCORNER {| color_pair := 2; A_BOLD := false |};
             Addch (top + h - 1) (left + w - 1) ACS_LRCORNER
               {| color_pair := 2; A_BOLD := false |}] ++ rows) y x = 
          if (top <=? y) && (y <? top + h) && (left <=? x) && (x <? left + w)
          then Some (box_cell top left w h y x) else None).
  rewrite !cell_at_app, rows_cell, vlines_cell, hlines_cell.
  unfold cell_at, box_cell. cbn [foldl writes].
  repeat match goal with
         | |- context [Z.eqb ?a ?b] => destruct (Z.eqb_spec a b)
         | |- context [Z.leb ?a ?b] => destruct (Z.leb_spec a b)
         | |- context [Z.ltb ?a ?b] => destruct (Z.ltb_spec a b)
         end;
    cbn [andb orb]; first [reflexivity | exfalso; lia].
Qed.


(** X17: on an erased screen [draw_input_box] leaves a closed frame: for
    a box of at least two rows and two columns, every cell of its
    rectangle ends up as the corner, line or blank that belongs there
    (the corners, drawn after the lines, replace them), and no cell
    outside the rectangle is touched. *)
Theorem box_drawn (cy cx : Z) :
  2 <= w -> 2 <= h -> top = cy - h / 2 -> left = cx - w / 2 ->
  cell_at (draw_input_box cy cx w h sh) y x =
  if (top <=? y) && (y <? top + h) && (left <=? x) && (x <? left + w)
  then Some (box_cell top left w h y x) else None.
Proof. exact (box_cells cy cx). Qed.

End BoxSegments.

(** ** Text in the box *)





(** ** The further properties at concrete inputs *)

Lemma log2_table_pools :
  forallb (fun p =>
    Qle_bool 0 (log2_table p) && Qle_bool (log2_table p) 7 &&
    forallb (fun q => implb (p <=? q) (Qle_bool (log2_table p) (log2_table q)))
            pools) pools = true.
Proof. vm_compute. reflexivity. Qed.

Lemma log2_table_on_pools (p : Z) :
  p ∈ pools ->
  (0 <= log2_table p <= 7)%Q /\
  forall q, q ∈ pools -> p <= q -> (log2_table p <= log2_table q)%Q.
Proof.
  intros Hp. pose proof log2_table_pools as G. rewrite forallb_forall in G.
  specialize (G p (proj1 (list_elem_of_In _ _) Hp)).
  apply andb_true_iff in G as [G Gm]. apply andb_true_iff in G as [G0 G7].
  apply Qle_bool_iff in G0, G7. split; [split; assumption|].
  intros q Hq Hpq. rewrite forallb_forall in Gm.
  specialize (Gm q (proj1 (list_elem_of_In _ _) Hq)).
  apply Z.leb_le in Hpq. rewrite Hpq in Gm. apply Qle_bool_iff. exact Gm.
Qed.

Lemma looks_good_is_strong_witness :
  6 <= score (analyze_password ascii_runtime (py "Abcdefgh1234!")) /\
  (rating (analyze_password ascii_runtime (py "Abcdefgh1234!")) = "Strong"%string \/
   rating (analyze_password ascii_runtime (py "Abcdefgh1234!")) = "Very Strong"%string).
Proof.
  apply (looks_good_is_strong ascii_runtime (py "Abcdefgh1234!")).
  vm_compute. reflexivity.
Defined.

Lemma short_never_strong_witness :
  len (py "aB3$") < 8 /\
  score (analyze_password ascii_runtime (py "aB3$")) <= 4 /\
  rating (analyze_password ascii_runtime (py "aB3$")) <> "Strong"%string /\
  rating (analyze_password ascii_runtime (py "aB3$")) <> "Very Strong"%string.
Proof.
  split; [reflexivity|].
  apply (short_never_strong ascii_runtime (py "aB3$")); [|reflexivity].
  intros p Hp. apply (log2_table_on_pools p Hp).
Defined.

Lemma analyze_ascii_independent_witness :
  analyze_password ascii_runtime (py "Tr0ub4dor&3") =
  analyze_password
    {| uni_islower := fun _ => true; uni_isupper := fun _ => true;
       uni_isdigit := fun _ => true; uni_isalnum := fun _ => false;
       uni_lower := fun _ => py "password"; math_log2 := log2_table |}
    (py "Tr0ub4dor&3").
Proof.
  apply analyze_ascii_independent; [repeat constructor | reflexivity].
Defined.

Lemma calc_entropy_nonneg_witness :
  (0 <= calc_entropy ascii_runtime (py "hello world"))%Q.
Proof.
  apply (calc_entropy_nonneg ascii_runtime (py "hello world")).
  intros p Hp. apply (log2_table_on_pools p Hp).
Defined.

Lemma entropy_append_monotone_witness :
  (calc_entropy ascii_runtime (py "hello") <=
   calc_entropy ascii_runtime (py "hello" ++ py " W0rld"))%Q.
Proof.
  apply (entropy_append_monotone ascii_runtime (py "hello") (py " W0rld")).
  - intros p Hp. apply (log2_table_on_pools p Hp).
  - intros p q Hp Hq. apply (log2_table_on_pools p Hp), Hq.
Defined.

Lemma generated_is_very_strong_witness :
  exists s t',
    generate_suggestion 16 [3; 1; 4; 1; 5; 9; 2; 6]%nat = (Ok s, t') /\
    analyze_password ascii_runtime s =
    {| score := 7; entropy := calc_entropy ascii_runtime s;
       rating := "Very Strong";
       suggestions :=
         ["Looks good — consider using a passphrase for extra entropy"%string] |}.
Proof.
  apply (generated_is_very_strong ascii_runtime 16 [3; 1; 4; 1; 5; 9; 2; 6]%nat);
    [lia | vm_compute; discriminate].
Defined.


Lemma suggest_key_witness :
  exists s t',
    generate_suggestion 16 [] = (Ok s, t') /\ len s = 16 /\ one_of_each s /\
    process_key 343 263 true (fun _ => false) 115 (initial None) [] =
      (Ok {| input_buffer := []; suggestion_pwd := s;
             clipboard := if true && false then Some s else None |}, t').
Proof.
  apply (suggest_key 343 263 true (fun _ => false) 115 (initial None) []);
    unfold is_enter, is_backspace, is_suggest; lia.
Defined.

Lemma strength_bar_exact_witness :
  bar (score (analyze_password ascii_runtime (py "Tr0ub4dor&3"))) (bar_w 80) =
  py "[##################################------]".
Proof.
  destruct (strength_bar_exact ascii_runtime (py "Tr0ub4dor&3") 80 ltac:(lia))
    as (_ & _ & H).
  destruct (H ltac:(reflexivity)) as (-> & _). reflexivity.
Defined.

Lemma box_fits_window_witness :
  Forall (inside 24 80) (draw_input_box (24 / 2) (80 / 2) (box_w 80) box_h true).
Proof. apply (box_fits_window 24 80 true). lia. Defined.

Lemma box_drawn_witness :
  cell_at (draw_input_box 12 40 70 7 false) 9 5 = Some (Glyph ACS_ULCORNER) /\
  cell_at (draw_input_box 12 40 70 7 false) 12 40 = Some (Char space) /\
  cell_at (draw_input_box 12 40 70 7 false) 8 5 = None.
Proof.
  split; [|split].
  - apply (box_drawn 9 5 70 7 false 9 5 12 40); [lia | lia | reflexivity..].
  - apply (box_drawn 9 5 70 7 false 12 40 12 40); [lia | lia | reflexivity..].
  - apply (box_drawn 9 5 70 7 false 8 5 12 40); [lia | lia | reflexivity..].
Defined.
